(** * ankisync: the record model of an Anki collection (anki_db.py)

    A shallow embedding of [src/ankisync/anki_db.py]: the three custom field
    codecs ([TagField], [JSONField], [ListField]), the four [pre_save] hooks
    ([col_pre_save], [notes_pre_save], [cards_pre_save], [revlog_pre_save]) and
    the tables they query.

    Python values are embedded as follows.
    - [int] is [Z]; a field that may hold [None] is an [option].
    - [str] is [string]; a character stands for the code point of the same
      number (0..255).
    - A call that may raise returns an [outcome]; a [while] loop takes a
      bound on the number of times its condition is evaluated and answers
      [OutOfFuel] when the bound is reached.
    - [time()] and [guid64()] read the outside world: the clock reading is an
      argument of the hook, the generator is a stream of draws with a cursor.
    - A [float] is the rational it denotes; a product of floats is the exact
      product rounded to the nearest float. *)

From Stdlib Require Import ZArith List String Ascii Bool Lia QArith Permutation.
From Stdlib Require Import DecimalString DecimalPos DecimalZ.
Import ListNotations.

Local Open Scope string_scope.
Local Open Scope Z_scope.

(** ** Exceptions and results *)

Module Py.

(** The exceptions the modelled code can raise, each with its message. *)
Inductive exc : Type :=
| ValueError (msg : string)
| TypeError (msg : string)
| AttributeError (msg : string)
| IndexError (msg : string)
| IntegrityError (msg : string).

(** What running a piece of Python gives: a value, a propagating exception,
    or no answer within the loop bound given to the model. *)
Inductive outcome (A : Type) : Type :=
| Done (a : A)
| Raise (e : exc)
| OutOfFuel.

Arguments Done {A} a.
Arguments Raise {A} e.
Arguments OutOfFuel {A}.

Definition bind {A B : Type} (m : outcome A) (k : A -> outcome B) : outcome B :=
  match m with
  | Done a => k a
  | Raise e => Raise e
  | OutOfFuel => OutOfFuel
  end.

Definition raises {A : Type} (m : outcome A) : Prop := exists e, m = Raise e.

(** [int(x)] on a number: truncation towards zero. *)
Definition int (x : Q) : Z := Z.quot (Qnum x) (Z.pos (Qden x)).

(** *** [float]

    A Python [float] is an IEEE 754 binary64 number, read here as the
    rational it denotes. The finite floats are the rationals
    [m * 2^t / 2^1074] with [|m| <= 2^53] and [0 <= t]: 53 significant bits
    above [2^-1022], the fixed step [2^-1074] below. An operation on floats
    gives the float nearest to the exact result, a tie going to the even
    significand. The exponent is not bounded above: the products taken here
    are of readings of the clock, far from the largest float (near 1.8e308),
    beyond which Python's product is [inf]. *)

(** [1 / denorm] is the smallest positive float. *)
Definition denorm : positive := 2 ^ 1074.

(** [n / d] rounded to the nearest integer, a tie to the even one. *)
Definition round_half_even (n d : Z) : Z :=
  let q := n / d in
  match 2 * (n mod d) ?= d with
  | Lt => q
  | Gt => q + 1
  | Eq => if Z.even q then q else q + 1
  end.

(** The step of the floats around [a / d], as a power of two in units of
    [1 / denorm]: what leaves 53 significant bits, and never less than one
    unit. *)
Definition exponent (a d : Z) : Z := Z.max 0 (Z.log2 (a * Z.pos denorm / d) - 52).

(** The float nearest to [a / d], in units of [1 / denorm], for [0 <= a] and
    [0 < d]. *)
Definition nearest (a d : Z) : Z :=
  let t := exponent a d in
  round_half_even (a * Z.pos denorm) (d * 2 ^ t) * 2 ^ t.

(** [float(x)]: the float nearest to [x]; a float is left as it is. *)
Definition float (x : Q) : Q :=
  Z.sgn (Qnum x) * nearest (Z.abs (Qnum x)) (Z.pos (Qden x)) # denorm.

(** [x * y] on floats: each operand is taken as a float ([float] leaves a
    float as it is and converts an [int] such as [1000]), and the exact
    product is rounded once. *)
Definition float_mul (x y : Q) : Q := float (float x * float y).

Arguments float : simpl never.
Arguments float_mul : simpl never.

(** *** [str] methods *)

(** [sep.join(l)]. *)
Fixpoint join (sep : string) (l : list string) : string :=
  match l with
  | [] => EmptyString
  | [s] => s
  | s :: rest => s ++ sep ++ join sep rest
  end.

(** [s.split(c)] for a separator of one character: never the empty list. *)
Fixpoint split (c : ascii) (s : string) : list string :=
  match s with
  | EmptyString => [EmptyString]
  | String a s' =>
      if Ascii.eqb a c then EmptyString :: split c s'
      else match split c s' with
           | w :: ws => String a w :: ws
           | [] => [String a EmptyString]
           end
  end.

(** [ch.isspace()] for the code points below 256: TAB, LF, VT, FF, CR, the
    four separators FS GS RS US, SPACE, NEL and NO-BREAK SPACE. *)
Definition isspace (a : ascii) : bool :=
  let n := N_of_ascii a in
  ((9 <=? n) && (n <=? 13) || (28 <=? n) && (n <=? 32) || (n =? 133) || (n =? 160))%N.

(** [s.lstrip()], [s.rstrip()] and [s.strip()] with no argument. *)
Fixpoint lstrip (s : string) : string :=
  match s with
  | EmptyString => EmptyString
  | String a s' => if isspace a then lstrip s' else s
  end.

Fixpoint rstrip (s : string) : string :=
  match s with
  | EmptyString => EmptyString
  | String a s' =>
      match rstrip s' with
      | EmptyString => if isspace a then EmptyString else String a EmptyString
      | r => String a r
      end
  end.

Definition strip (s : string) : string := rstrip (lstrip s).

(** [s[-1]], when there is one. *)
Fixpoint last_char (s : string) : option ascii :=
  match s with
  | EmptyString => None
  | String a EmptyString => Some a
  | String _ s' => last_char s'
  end.

(** [s[:1].isspace()] and [s[-1:].isspace()]. *)
Definition starts_with_space (s : string) : bool :=
  match s with
  | EmptyString => false
  | String a _ => isspace a
  end.

Definition ends_with_space (s : string) : bool :=
  match last_char s with
  | None => false
  | Some a => isspace a
  end.

(** [s.count(c)] for a character. *)
Fixpoint count (c : ascii) (s : string) : nat :=
  match s with
  | EmptyString => O
  | String a s' => if Ascii.eqb a c then S (count c s') else count c s'
  end.

(** [c in s] for a character. *)
Fixpoint contains (c : ascii) (s : string) : bool :=
  match s with
  | EmptyString => false
  | String a s' => Ascii.eqb a c || contains c s'
  end.

End Py.

Import Py.

Declare Scope py_scope.
Notation "x <- m ;; k" := (bind m (fun x => k))
  (at level 61, m at next level, right associativity) : py_scope.
Local Open Scope py_scope.

(** The unit separator, U+001F, and the space. *)
Definition US : ascii := ascii_of_N 31.
Definition SP : ascii := ascii_of_N 32.

(** ** Field codecs *)

(** [class TagField(pv.TextField)] *)
Module TagField.

(** [db_value]: [' '.join(value)]. *)
Definition db_value (value : list string) : string := join (String SP EmptyString) value.

(** [python_value]: [value.strip().split(' ')]. *)
Definition python_value (value : string) : list string := split SP (strip value).

End TagField.

(** [class ListField(pv.TextField)] *)
Module ListField.

(** [db_value]: the joined text when [value] is truthy (a list that is not
    empty); otherwise the method falls off its end and returns [None]. *)
Definition db_value (value : list string) : option string :=
  match value with
  | [] => None
  | _ :: _ => Some (join (String US EmptyString) value)
  end.

(** [python_value]: [value.split('\u001f')]. [None] has no [split]. *)
Definition python_value (value : option string) : outcome (list string) :=
  match value with
  | Some s => Done (split US s)
  | None => Raise (AttributeError "'NoneType' object has no attribute 'split'")
  end.

End ListField.

(** ** Python values held by a [JSONField] *)

Set Warnings "-register-all".

(** The values [json.loads] can return, floats apart: [None], [bool], [int],
    [str], [list], and [dict] with [str] keys, in insertion order. *)
Inductive pyval : Type :=
| PNone
| PBool (b : bool)
| PInt (n : Z)
| PStr (s : string)
| PList (items : list pyval)
| PDict (entries : list (string * pyval)).

(** The hashable ones, as a [set] stores them. *)
Inductive pykey : Type :=
| KNone
| KBool (b : bool)
| KInt (n : Z)
| KStr (s : string).

Module PyVal.

(** [type(v).__name__]. *)
Definition type_name (v : pyval) : string :=
  match v with
  | PNone => "NoneType"
  | PBool _ => "bool"
  | PInt _ => "int"
  | PStr _ => "str"
  | PList _ => "list"
  | PDict _ => "dict"
  end.

(** [hash(v)]: a list or a dict has none. *)
Definition hashed (v : pyval) : outcome pykey :=
  match v with
  | PNone => Done KNone
  | PBool b => Done (KBool b)
  | PInt n => Done (KInt n)
  | PStr s => Done (KStr s)
  | PList _ | PDict _ => Raise (TypeError ("unhashable type: '" ++ type_name v ++ "'"))
  end.

(** [a == b] on hashable values: [True == 1] and [False == 0]. *)
Definition key_eqb (a b : pykey) : bool :=
  match a, b with
  | KNone, KNone => true
  | KBool x, KBool y => Bool.eqb x y
  | KInt x, KInt y => Z.eqb x y
  | KBool x, KInt y | KInt y, KBool x => Z.eqb y (if x then 1 else 0)
  | KStr x, KStr y => String.eqb x y
  | _, _ => false
  end.

(** [k in names] for a [set], kept as the list of what was added. *)
Definition set_mem (k : pykey) (names : list pykey) : bool := existsb (key_eqb k) names.

(** [str(k)], as [format] prints it. *)
Definition str (k : pykey) : string :=
  match k with
  | KNone => "None"
  | KBool true => "True"
  | KBool false => "False"
  | KInt n => NilZero.string_of_int (Z.to_int n)
  | KStr s => s
  end.

(** [key in d.keys()] and [d[key]] on the entries of a dict. *)
Fixpoint lookup (key : string) (d : list (string * pyval)) : option pyval :=
  match d with
  | [] => None
  | (k, v) :: rest => if String.eqb k key then Some v else lookup key rest
  end.

(** [value.values()]. *)
Definition values (value : pyval) : outcome (list pyval) :=
  match value with
  | PDict d => Done (map snd d)
  | _ => Raise (AttributeError ("'" ++ type_name value ++ "' object has no attribute 'values'"))
  end.


(** A value as Python builds it: the keys of every dict are distinct. *)
Fixpoint distinct (keys : list string) : bool :=
  match keys with
  | [] => true
  | k :: rest => negb (existsb (String.eqb k) rest) && distinct rest
  end.

Fixpoint well_formed (v : pyval) : bool :=
  match v with
  | PList items => forallb well_formed items
  | PDict entries =>
      distinct (map fst entries) && forallb (fun kv => well_formed (snd kv)) entries
  | _ => true
  end.

End PyVal.

(** ** A JSON printer and parser

    [json.dumps] and [json.loads] belong to the standard library of Python;
    [JSONField] takes them as parameters. This printer and parser, for the
    values of [pyval], show that the contract assumed of them can be met: the
    printer follows the default layout of [json.dumps] (separators [", "] and
    [": "], non-printable and non-ASCII characters escaped), the parser reads
    JSON text with integers for numbers. *)
Module Json.

Definition DQ : ascii := ascii_of_N 34.
Definition BSL : ascii := ascii_of_N 92.

Definition hex_digit (n : N) : ascii :=
  if (n <? 10)%N then ascii_of_N (48 + n) else ascii_of_N (87 + n).

Definition hex_value (a : ascii) : option N :=
  let n := N_of_ascii a in
  if ((48 <=? n) && (n <=? 57))%N then Some (n - 48)%N
  else if ((97 <=? n) && (n <=? 102))%N then Some (n - 87)%N
  else if ((65 <=? n) && (n <=? 70))%N then Some (n - 55)%N
  else None.

Definition escape_char (a : ascii) : string :=
  let n := N_of_ascii a in
  if (n =? 34)%N then String BSL (String DQ "")
  else if (n =? 92)%N then String BSL (String BSL "")
  else if (n =? 10)%N then String BSL "n"
  else if (n =? 13)%N then String BSL "r"
  else if (n =? 9)%N then String BSL "t"
  else if (n =? 8)%N then String BSL "b"
  else if (n =? 12)%N then String BSL "f"
  else if ((32 <=? n) && (n <=? 126))%N then String a ""
  else String BSL ("u00" ++ String (hex_digit (n / 16)) (String (hex_digit (n mod 16)) "")).

Fixpoint escape (s : string) : string :=
  match s with
  | EmptyString => EmptyString
  | String a s' => escape_char a ++ escape s'
  end.

Definition quote (s : string) : string := String DQ (escape s ++ String DQ "").

Definition print_int (n : Z) : string :=
  match Z.to_int n with
  | Decimal.Pos d => NilEmpty.string_of_uint d
  | Decimal.Neg d => String "-" (NilEmpty.string_of_uint d)
  end.

Fixpoint print (v : pyval) : string :=
  match v with
  | PNone => "null"
  | PBool true => "true"
  | PBool false => "false"
  | PInt n => print_int n
  | PStr s => quote s
  | PList items => "[" ++ join ", " (map print items) ++ "]"
  | PDict entries =>
      "{" ++ join ", " (map (fun kv => quote (fst kv) ++ ": " ++ print (snd kv)) entries) ++ "}"
  end.

Definition is_ws (a : ascii) : bool :=
  let n := N_of_ascii a in ((n =? 32) || (n =? 9) || (n =? 10) || (n =? 13))%N.

Fixpoint skip_ws (s : string) : string :=
  match s with
  | EmptyString => EmptyString
  | String a s' => if is_ws a then skip_ws s' else s
  end.

Fixpoint expect (word s : string) : option string :=
  match word with
  | EmptyString => Some s
  | String a w =>
      match s with
      | String b s' => if Ascii.eqb a b then expect w s' else None
      | EmptyString => None
      end
  end.

Definition unescape (e : ascii) : option ascii :=
  let n := N_of_ascii e in
  if (n =? 34)%N then Some DQ
  else if (n =? 92)%N then Some BSL
  else if (n =? 47)%N then Some (ascii_of_N 47)
  else if (n =? 110)%N then Some (ascii_of_N 10)
  else if (n =? 114)%N then Some (ascii_of_N 13)
  else if (n =? 116)%N then Some (ascii_of_N 9)
  else if (n =? 98)%N then Some (ascii_of_N 8)
  else if (n =? 102)%N then Some (ascii_of_N 12)
  else None.

Definition hex4 (a b c d : ascii) : option ascii :=
  match hex_value a, hex_value b, hex_value c, hex_value d with
  | Some 0%N, Some 0%N, Some x, Some y => Some (ascii_of_N (16 * x + y))
  | _, _, _, _ => None
  end.

(** The characters of a string literal, after its opening quote. *)
Fixpoint parse_chars (s : string) : option (string * string) :=
  match s with
  | EmptyString => None
  | String c s1 =>
      if Ascii.eqb c DQ then Some (EmptyString, s1)
      else if Ascii.eqb c BSL then
        match s1 with
        | EmptyString => None
        | String e s2 =>
            if Ascii.eqb e "u" then
              match s2 with
              | String h1 (String h2 (String h3 (String h4 s6))) =>
                  match hex4 h1 h2 h3 h4, parse_chars s6 with
                  | Some a, Some (w, r) => Some (String a w, r)
                  | _, _ => None
                  end
              | _ => None
              end
            else
              match unescape e, parse_chars s2 with
              | Some a, Some (w, r) => Some (String a w, r)
              | _, _ => None
              end
        end
      else
        match parse_chars s1 with
        | Some (w, r) => Some (String c w, r)
        | None => None
        end
  end.

Definition digit_of (a : ascii) : option (Decimal.uint -> Decimal.uint) :=
  match N_of_ascii a with
  | 48%N => Some Decimal.D0
  | 49%N => Some Decimal.D1
  | 50%N => Some Decimal.D2
  | 51%N => Some Decimal.D3
  | 52%N => Some Decimal.D4
  | 53%N => Some Decimal.D5
  | 54%N => Some Decimal.D6
  | 55%N => Some Decimal.D7
  | 56%N => Some Decimal.D8
  | 57%N => Some Decimal.D9
  | _ => None
  end.

Fixpoint parse_uint (s : string) : Decimal.uint * string :=
  match s with
  | EmptyString => (Decimal.Nil, EmptyString)
  | String a s' =>
      match digit_of a with
      | Some d => let (u, r) := parse_uint s' in (d u, r)
      | None => (Decimal.Nil, s)
      end
  end.

Definition parse_int (s : string) : option (Z * string) :=
  match s with
  | EmptyString => None
  | String c s' =>
      if Ascii.eqb c "-" then
        match parse_uint s' with
        | (Decimal.Nil, _) => None
        | (u, r) => Some (Z.of_int (Decimal.Neg u), r)
        end
      else
        match parse_uint s with
        | (Decimal.Nil, _) => None
        | (u, r) => Some (Z.of_int (Decimal.Pos u), r)
        end
  end.

(** What follows the first character of a value, by that character. *)
Definition closes (c : ascii) (s : string) : option string :=
  match skip_ws s with
  | String a r => if Ascii.eqb a c then Some r else None
  | EmptyString => None
  end.

Fixpoint parse_value (fuel : nat) (s : string) {struct fuel} : option (pyval * string) :=
  match fuel with
  | O => None
  | S f =>
      match skip_ws s with
      | EmptyString => None
      | String c s1 =>
          if Ascii.eqb c "n" then option_map (pair PNone) (expect "ull" s1)
          else if Ascii.eqb c "t" then option_map (pair (PBool true)) (expect "rue" s1)
          else if Ascii.eqb c "f" then option_map (pair (PBool false)) (expect "alse" s1)
          else if Ascii.eqb c DQ then
            match parse_chars s1 with
            | Some (w, r) => Some (PStr w, r)
            | None => None
            end
          else if Ascii.eqb c "[" then
            match closes "]" s1 with
            | Some r => Some (PList [], r)
            | None =>
                match parse_elements f s1 with
                | Some (l, r) => Some (PList l, r)
                | None => None
                end
            end
          else if Ascii.eqb c "{" then
            match closes "}" s1 with
            | Some r => Some (PDict [], r)
            | None =>
                match parse_members f s1 with
                | Some (l, r) => Some (PDict l, r)
                | None => None
                end
            end
          else
            match parse_int (String c s1) with
            | Some (n, r) => Some (PInt n, r)
            | None => None
            end
      end
  end
with parse_elements (fuel : nat) (s : string) {struct fuel} : option (list pyval * string) :=
  match fuel with
  | O => None
  | S f =>
      match parse_value f s with
      | Some (v, r) =>
          match closes "," r with
          | Some r' =>
              match parse_elements f r' with
              | Some (l, r'') => Some (v :: l, r'')
              | None => None
              end
          | None =>
              match closes "]" r with
              | Some r' => Some ([v], r')
              | None => None
              end
          end
      | None => None
      end
  end
with parse_members (fuel : nat) (s : string) {struct fuel}
    : option (list (string * pyval) * string) :=
  match fuel with
  | O => None
  | S f =>
      match closes DQ s with
      | Some s1 =>
          match parse_chars s1 with
          | Some (k, r) =>
              match closes ":" r with
              | Some r1 =>
                  match parse_value f r1 with
                  | Some (v, r2) =>
                      match closes "," r2 with
                      | Some r3 =>
                          match parse_members f r3 with
                          | Some (l, r4) => Some ((k, v) :: l, r4)
                          | None => None
                          end
                      | None =>
                          match closes "}" r2 with
                          | Some r3 => Some ([(k, v)], r3)
                          | None => None
                          end
                      end
                  | None => None
                  end
              | None => None
              end
          | None => None
          end
      | None => None
      end
  end.

Definition parse (s : string) : option pyval :=
  match parse_value (S (String.length s)) s with
  | Some (v, r) => match skip_ws r with EmptyString => Some v | _ => None end
  | None => None
  end.

(** [dumps] and [loads] as [JSONField] calls them. *)
Definition dumps (v : pyval) : outcome string := Done (print v).

Definition loads (text : string) : outcome pyval :=
  match parse text with
  | Some v => Done v
  | None => Raise (ValueError "Expecting value")
  end.

(** The fuel that parsing the text of a value takes. *)
Fixpoint weight (v : pyval) : nat :=
  match v with
  | PList items => S (list_sum (map (fun x => S (weight x)) items))
  | PDict entries => S (list_sum (map (fun kv => S (weight (snd kv))) entries))
  | _ => 1
  end.

Definition sum_weights (items : list pyval) : nat :=
  list_sum (map (fun x => S (weight x)) items).

Definition sum_entry_weights (entries : list (string * pyval)) : nat :=
  list_sum (map (fun kv => S (weight (snd kv))) entries).

Definition print_entry (kv : string * pyval) : string :=
  quote (fst kv) ++ ": " ++ print (snd kv).

(** The text that follows a number does not go on with a digit. *)
Definition no_digit_head (s : string) : Prop :=
  match s with
  | EmptyString => True
  | String a _ => digit_of a = None
  end.

(** A character a number can begin with. *)
Definition number_start (c : ascii) : bool :=
  match digit_of c with
  | Some _ => true
  | None => Ascii.eqb c "-"
  end.

(** The characters a printed value can begin with. *)
Definition value_start (c : ascii) : bool :=
  number_start c || Ascii.eqb c "n" || Ascii.eqb c "t" || Ascii.eqb c "f"
  || Ascii.eqb c DQ || Ascii.eqb c "[" || Ascii.eqb c "{".

(** Parsing the text of [v], whatever follows it, gives [v] back. *)
Definition parses_back (v : pyval) : Prop :=
  forall (f : nat) (rest : string),
    (weight v <= f)%nat -> no_digit_head rest ->
    parse_value f (print v ++ rest) = Some (v, rest).

End Json.

(** [class JSONField(pv.TextField)] *)
Module JSONField.

(** The body of [for v2 in value.values()], with [all_names] threaded. *)
Fixpoint scan (vs : list pyval) (all_names : list pykey) : outcome unit :=
  match vs with
  | [] => Done tt
  | v2 :: rest =>
      match v2 with
      | PDict d =>
          match PyVal.lookup "name" d with
          | Some name =>
              k <- PyVal.hashed name ;;
              if PyVal.set_mem k all_names
              then Raise (ValueError ("Duplicate name: " ++ PyVal.str k))
              else scan rest (k :: all_names)
          | None => scan rest all_names
          end
      | _ => scan rest all_names
      end
  end.

(** The name of a top-level value: [v2['name']] when [v2] is a dict with the
    key ['name']. *)
Definition name_of (v2 : pyval) : option pyval :=
  match v2 with
  | PDict d => PyVal.lookup "name" d
  | _ => None
  end.

(** That name as the set stores it, when it is hashable. *)
Definition name_key (v2 : pyval) : option pykey :=
  match name_of v2 with
  | Some name =>
      match PyVal.hashed name with
      | Done k => Some k
      | _ => None
      end
  | None => None
  end.

(** Every name among the top-level values is hashable. *)
Definition hashable_names (vs : list pyval) : Prop :=
  forall v2 name, In v2 vs -> name_of v2 = Some name -> exists k, PyVal.hashed name = Done k.

(** Two of the top-level values, at different places, are dicts with a
    ['name'] key, and their names are equal. *)
Inductive duplicate_names : list pyval -> Prop :=
| dup_first (v : pyval) (rest : list pyval) (v' : pyval) (a b : pykey) :
    name_key v = Some a -> In v' rest -> name_key v' = Some b ->
    PyVal.key_eqb a b = true -> duplicate_names (v :: rest)
| dup_later (v : pyval) (rest : list pyval) :
    duplicate_names rest -> duplicate_names (v :: rest).

(** A top-level value whose name the set cannot hash. *)
Definition unhashable_name (vs : list pyval) : Prop :=
  exists v name e, In v vs /\ name_of v = Some name /\ PyVal.hashed name = Raise e.

(** A name of [vs] is already in the set [seen]. *)
Definition seen_before (vs : list pyval) (seen : list pykey) : Prop :=
  exists v k, In v vs /\ name_key v = Some k /\ PyVal.set_mem k seen = true.

(** The check stops at the name [name], which the set cannot hash: the
    top-level values before it carry hashable names, no two of them equal. *)
Definition first_unhashable (vs : list pyval) (name : pyval) : Prop :=
  exists l1 v l2,
    vs = (l1 ++ v :: l2)%list /\ hashable_names l1 /\ ~ duplicate_names l1 /\
    name_of v = Some name /\ exists e, PyVal.hashed name = Raise e.

(** The check stops at the name [k], which an earlier top-level value
    carries: the names before it are hashable, no two of them equal. *)
Definition first_repeated (vs : list pyval) (k : pykey) : Prop :=
  exists l1 v l2 v' a,
    vs = (l1 ++ v :: l2)%list /\ hashable_names l1 /\ ~ duplicate_names l1 /\
    name_key v = Some k /\ In v' l1 /\ name_key v' = Some a /\ PyVal.key_eqb k a = true.

Section Codec.

(** [json.dumps] and [json.loads], from the standard library. *)
Variable json_dumps : pyval -> outcome string.
Variable json_loads : string -> outcome pyval.

Definition db_value (value : pyval) : outcome string :=
  vs <- PyVal.values value ;;
  _ <- scan vs [] ;;
  json_dumps value.

Definition python_value (value : string) : outcome pyval := json_loads value.

End Codec.

End JSONField.

(** ** Tables and the queries the hooks run *)

(** A model class whose primary key is the integer column [id]. *)
Class Model (R : Type) : Type := {
  pk : R -> Z;
  set_pk : R -> Z -> R;
  pk_set_pk : forall (r : R) (v : Z), pk (set_pk r v) = v
}.

Module Db.

Section Queries.

Context {R : Type} `{Model R}.

(** The rows of a table, oldest first. *)
Definition table : Type := list R.

(** [model_class.get_or_none(id=i)]. *)
Definition get_or_none_id (model_class : table) (i : Z) : option R :=
  find (fun r => pk r =? i) model_class.

(** [model_class.select(pv.fn.Max(model_class.id)).scalar()]: SQL's [MAX]
    is [NULL], hence [None], on an empty table. *)
Fixpoint max_id (model_class : table) : option Z :=
  match model_class with
  | [] => None
  | r :: rest =>
      match max_id rest with
      | None => Some (pk r)
      | Some m => Some (Z.max (pk r) m)
      end
  end.

(** [x + 1] for what [scalar()] returned. *)
Definition plus_one (x : option Z) : outcome Z :=
  match x with
  | Some m => Done (m + 1)
  | None => Raise (TypeError "unsupported operand type(s) for +: 'NoneType' and 'int'")
  end.

(** The loop
    [while model_class.get_or_none(id=instance.id) is not None:
         instance.id = model_class.select(pv.fn.Max(model_class.id)).scalar() + 1]
    that opens the hooks of Notes, Cards and Revlog; [fuel] bounds the number
    of times the condition is evaluated. *)
Fixpoint while_id_exists (fuel : nat) (model_class : table) (instance : R) : outcome R :=
  match fuel with
  | O => OutOfFuel
  | S fuel' =>
      match get_or_none_id model_class (pk instance) with
      | Some _ =>
          i <- plus_one (max_id model_class) ;;
          while_id_exists fuel' model_class (set_pk instance i)
      | None => Done instance
      end
  end.

(** The ids present in a table. *)
Definition ids (model_class : table) : list Z := map pk model_class.

End Queries.

Arguments table R : clear implicits.

End Db.

(** [l[0]]. *)
Definition item0 {A : Type} (l : list A) : outcome A :=
  match l with
  | x :: _ => Done x
  | [] => Raise (IndexError "list index out of range")
  end.

(** ** Notes *)

Module Notes.

(** [class Notes(BaseModel)]: a column declared without a default holds
    [None] until it is assigned. *)
Record row : Type := {
  id : Z;
  guid : string;
  mid : option Z;
  mod_ : option Z;
  usn : Z;
  tags : list string;
  flds : list string;
  sfld : option string;
  csum : option Z;
  flags : Z;
  data : string
}.

Definition set_id (r : row) (v : Z) : row :=
  {| id := v; guid := guid r; mid := mid r; mod_ := mod_ r; usn := usn r; tags := tags r;
     flds := flds r; sfld := sfld r; csum := csum r; flags := flags r; data := data r |}.

Definition set_guid (r : row) (v : string) : row :=
  {| id := id r; guid := v; mid := mid r; mod_ := mod_ r; usn := usn r; tags := tags r;
     flds := flds r; sfld := sfld r; csum := csum r; flags := flags r; data := data r |}.

Definition set_mod (r : row) (v : Z) : row :=
  {| id := id r; guid := guid r; mid := mid r; mod_ := Some v; usn := usn r; tags := tags r;
     flds := flds r; sfld := sfld r; csum := csum r; flags := flags r; data := data r |}.

Definition set_sfld (r : row) (v : string) : row :=
  {| id := id r; guid := guid r; mid := mid r; mod_ := mod_ r; usn := usn r; tags := tags r;
     flds := flds r; sfld := Some v; csum := csum r; flags := flags r; data := data r |}.

Definition set_csum (r : row) (v : Z) : row :=
  {| id := id r; guid := guid r; mid := mid r; mod_ := mod_ r; usn := usn r; tags := tags r;
     flds := flds r; sfld := sfld r; csum := Some v; flags := flags r; data := data r |}.

(** The instance as a caller builds it with its own [sfld] and [csum]. *)
Definition supply (r : row) (s : option string) (c : option Z) : row :=
  {| id := id r; guid := guid r; mid := mid r; mod_ := mod_ r; usn := usn r; tags := tags r;
     flds := flds r; sfld := s; csum := c; flags := flags r; data := data r |}.

#[global] Instance model : Model row :=
  {| pk := id; set_pk := set_id; pk_set_pk := fun _ _ => eq_refl |}.

(** [model_class.get_or_none(guid=g)]. *)
Definition get_or_none_guid (model_class : Db.table row) (g : string) : option row :=
  find (fun r => String.eqb (guid r) g) model_class.

(** The guids present in the table. *)
Definition guids (model_class : Db.table row) : list string := map guid model_class.

(** The loop
    [while model_class.get_or_none(guid=instance.guid) is not None:
         instance.guid = guid64()];
    the [n]-th call of [guid64] returns [guid64 n], and [cursor] counts the
    calls made so far. *)
Fixpoint while_guid_exists (fuel : nat) (model_class : Db.table row)
    (guid64 : nat -> string) (cursor : nat) (instance : row) : outcome (row * nat) :=
  match fuel with
  | O => OutOfFuel
  | S fuel' =>
      match get_or_none_guid model_class (guid instance) with
      | Some _ =>
          while_guid_exists fuel' model_class guid64 (S cursor)
            (set_guid instance (guid64 cursor))
      | None => Done (instance, cursor)
      end
  end.

Section Hook.

(** [stripHTMLMedia] and [field_checksum], from [ankisync.anki_util]. *)
Variable stripHTMLMedia : string -> string.
Variable field_checksum : string -> Z.

(** [instance.sfld] as [field_checksum] takes it: a [str]; [None] is none. *)
Definition sfld_of (r : row) : outcome string :=
  match sfld r with
  | Some s => Done s
  | None => Raise (TypeError "expected string or bytes-like object")
  end.

(** [notes_pre_save(model_class, instance, created)]. [now] is what
    [time()] returns, a float; the result carries the generator's cursor. *)
Definition notes_pre_save (fuel : nat) (now : Q) (guid64 : nat -> string) (cursor : nat)
    (model_class : Db.table row) (instance : row) (created : bool) : outcome (row * nat) :=
  instance <- Db.while_id_exists fuel model_class instance ;;
  ic <- while_guid_exists fuel model_class guid64 cursor instance ;;
  let instance := set_mod (fst ic) (int (float_mul now 1000)) in
  f0 <- item0 (flds instance) ;;
  let instance := set_sfld instance (stripHTMLMedia f0) in
  s <- sfld_of instance ;;
  let instance := set_csum instance (field_checksum s) in
  Done (instance, snd ic).

(** The three assignments that end the hook, on a note whose first field
    is [f0]. *)
Definition stamped (now : Q) (f0 : string) (r : row) : row :=
  set_csum (set_sfld (set_mod r (int (float_mul now 1000))) (stripHTMLMedia f0))
    (field_checksum (stripHTMLMedia f0)).

End Hook.

End Notes.

(** ** Cards *)

Module Cards.

(** [class Cards(BaseModel)]. *)
Record row : Type := {
  id : Z;
  nid : option Z;
  did : option Z;
  ord : option Z;
  mod_ : option Z;
  usn : Z;
  type : Z;
  queue : Z;
  due : option Z;
  ivl : Z;
  factor : Z;
  reps : Z;
  lapses : Z;
  left : Z;
  odue : Z;
  odid : Z;
  flags : Z;
  data : string
}.

Definition set_id (r : row) (v : Z) : row :=
  {| id := v; nid := nid r; did := did r; ord := ord r; mod_ := mod_ r; usn := usn r;
     type := type r; queue := queue r; due := due r; ivl := ivl r; factor := factor r;
     reps := reps r; lapses := lapses r; left := left r; odue := odue r; odid := odid r;
     flags := flags r; data := data r |}.

Definition set_mod (r : row) (v : Z) : row :=
  {| id := id r; nid := nid r; did := did r; ord := ord r; mod_ := Some v; usn := usn r;
     type := type r; queue := queue r; due := due r; ivl := ivl r; factor := factor r;
     reps := reps r; lapses := lapses r; left := left r; odue := odue r; odid := odid r;
     flags := flags r; data := data r |}.

Definition set_due (r : row) (v : option Z) : row :=
  {| id := id r; nid := nid r; did := did r; ord := ord r; mod_ := mod_ r; usn := usn r;
     type := type r; queue := queue r; due := v; ivl := ivl r; factor := factor r;
     reps := reps r; lapses := lapses r; left := left r; odue := odue r; odid := odid r;
     flags := flags r; data := data r |}.

#[global] Instance model : Model row :=
  {| pk := id; set_pk := set_id; pk_set_pk := fun _ _ => eq_refl |}.

(** [cards_pre_save(model_class, instance, created)]. *)
Definition cards_pre_save (fuel : nat) (now : Q)
    (model_class : Db.table row) (instance : row) (created : bool) : outcome row :=
  instance <- Db.while_id_exists fuel model_class instance ;;
  let instance := set_mod instance (int now) in
  let instance :=
    match due instance with
    | None => set_due instance (nid instance)
    | Some _ => instance
    end in
  Done instance.

End Cards.

(** ** Revlog *)

Module Revlog.

(** [class Revlog(BaseModel)]. *)
Record row : Type := {
  id : Z;
  cid : option Z;
  usn : Z;
  ease : option Z;
  ivl : option Z;
  lastIvl : option Z;
  factor : option Z;
  time : option Z;
  type : option Z
}.

Definition set_id (r : row) (v : Z) : row :=
  {| id := v; cid := cid r; usn := usn r; ease := ease r; ivl := ivl r;
     lastIvl := lastIvl r; factor := factor r; time := time r; type := type r |}.

#[global] Instance model : Model row :=
  {| pk := id; set_pk := set_id; pk_set_pk := fun _ _ => eq_refl |}.

(** [revlog_pre_save(model_class, instance, created)]. *)
Definition revlog_pre_save (fuel : nat)
    (model_class : Db.table row) (instance : row) (created : bool) : outcome row :=
  Db.while_id_exists fuel model_class instance.

End Revlog.

(** ** Col *)

Module Col.

(** [class Col(BaseModel)]; [J] is what the five [JSONField] columns hold:
    Python values on an instance, text in a stored row. *)
Record row (J : Type) : Type := {
  id : Z;
  crt : Z;
  mod_ : option Z;
  scm : Z;
  ver : Z;
  dty : Z;
  usn : Z;
  ls : Z;
  conf : J;
  models : J;
  decks : J;
  dconf : J;
  tags : J
}.

Arguments id {J} r.
Arguments crt {J} r.
Arguments mod_ {J} r.
Arguments scm {J} r.
Arguments ver {J} r.
Arguments dty {J} r.
Arguments usn {J} r.
Arguments ls {J} r.
Arguments conf {J} r.
Arguments models {J} r.
Arguments decks {J} r.
Arguments dconf {J} r.
Arguments tags {J} r.

Definition set_mod {J : Type} (r : row J) (v : Z) : row J :=
  {| id := id r; crt := crt r; mod_ := Some v; scm := scm r; ver := ver r; dty := dty r;
     usn := usn r; ls := ls r; conf := conf r; models := models r; decks := decks r;
     dconf := dconf r; tags := tags r |}.

(** What the five [JSONField] columns of an instance hold. *)
Definition json_columns (r : row pyval) : list pyval :=
  [conf r; models r; decks r; dconf r; tags r].

(** [col_pre_save(model_class, instance, created)]. *)
Definition col_pre_save (now : Q) (instance : row pyval) (created : bool) : row pyval :=
  set_mod instance (int now).

End Col.

(** ** Saving a record *)

(** Modelled from the spec: the storage engine's write (section 6, [put]),
    which the peewee and SQLite layers outside [src/] perform once the
    [pre_save] hook has run: an INSERT when the record is created, otherwise
    an UPDATE of the row whose primary key is the instance's id. The primary
    key and a column declared [unique=True] refuse a second holder, and a
    write that is refused, or never reached because an exception propagates,
    leaves the table as it was. *)
Module Save.

Section Write.

Context {R : Type} `{Model R}.

(** [clash r x]: the stored row [x] holds a unique value of [r]. *)
Variable clash : R -> R -> bool.

Definition insert (tbl : Db.table R) (r : R) : outcome (Db.table R) :=
  if existsb (fun x => pk x =? pk r) tbl
  then Raise (IntegrityError "UNIQUE constraint failed: id")
  else if existsb (clash r) tbl
  then Raise (IntegrityError "UNIQUE constraint failed")
  else Done (tbl ++ [r])%list.

Definition update (tbl : Db.table R) (r : R) : outcome (Db.table R) :=
  if existsb (fun x => pk x =? pk r) tbl
     && existsb (fun x => negb (pk x =? pk r) && clash r x) tbl
  then Raise (IntegrityError "UNIQUE constraint failed")
  else Done (map (fun x => if pk x =? pk r then r else x) tbl).

Definition write (tbl : Db.table R) (r : R) (created : bool) : outcome (Db.table R) :=
  if created then insert tbl r else update tbl r.

(** The table after a save whose hook gave [hooked]. *)
Definition commit {A : Type} (tbl : Db.table R) (hooked : outcome A) (get : A -> R)
    (created : bool) : outcome A * Db.table R :=
  match hooked with
  | Done a =>
      match write tbl (get a) created with
      | Done tbl' => (Done a, tbl')
      | Raise e => (Raise e, tbl)
      | OutOfFuel => (OutOfFuel, tbl)
      end
  | Raise e => (Raise e, tbl)
  | OutOfFuel => (OutOfFuel, tbl)
  end.

End Write.

(** [Notes.guid] is declared [unique=True]. *)
Definition notes_clash (r x : Notes.row) : bool := String.eqb (Notes.guid x) (Notes.guid r).

Definition no_clash {R : Type} (r x : R) : bool := false.

Section NotesSave.

Variable stripHTMLMedia : string -> string.
Variable field_checksum : string -> Z.

(** Saving a note: the hook, then the write. *)
Definition notes (fuel : nat) (now : Q) (guid64 : nat -> string) (cursor : nat)
    (tbl : Db.table Notes.row) (instance : Notes.row) (created : bool)
    : outcome (Notes.row * nat) * Db.table Notes.row :=
  commit notes_clash tbl
    (Notes.notes_pre_save stripHTMLMedia field_checksum fuel now guid64 cursor tbl instance created)
    fst created.

(** The table in which the row that held the id [old] is overwritten by
    [r]. *)
Definition overwrite (tbl : Db.table Notes.row) (old : Z) (r : Notes.row)
    : Db.table Notes.row :=
  map (fun x => if Notes.id x =? old then r else x) tbl.

(** The tables a run of note saves can leave, from the empty table on; each
    save has its own clock reading, generator and instance. An UPDATE that
    follows a hook which changed the instance's id is taken both ways: by the
    id the hook left ([reach_save]), and by the id the instance came with
    ([reach_overwrite]). *)
Inductive reachable : Db.table Notes.row -> Prop :=
| reach_empty : reachable []
| reach_save (tbl : Db.table Notes.row) (fuel : nat) (now : Q) (guid64 : nat -> string)
    (cursor : nat) (instance : Notes.row) (created : bool) :
    reachable tbl ->
    reachable (snd (notes fuel now guid64 cursor tbl instance created))
| reach_overwrite (tbl : Db.table Notes.row) (fuel : nat) (now : Q) (guid64 : nat -> string)
    (cursor : nat) (instance : Notes.row) (r : Notes.row) (c : nat) :
    reachable tbl ->
    Notes.notes_pre_save stripHTMLMedia field_checksum fuel now guid64 cursor tbl instance false
      = Done (r, c) ->
    reachable (overwrite tbl (Notes.id instance) r).

End NotesSave.

(** Saving a card. *)
Definition cards (fuel : nat) (now : Q) (tbl : Db.table Cards.row) (instance : Cards.row)
    (created : bool) : outcome Cards.row * Db.table Cards.row :=
  commit no_clash tbl (Cards.cards_pre_save fuel now tbl instance created) (fun r => r) created.

Section ColSave.

Variable json_dumps : pyval -> outcome string.

(** The five [JSONField] columns pass through [db_value], in the order of
    their declaration. *)
Definition col_encode (r : Col.row pyval) : outcome (Col.row string) :=
  conf' <- JSONField.db_value json_dumps (Col.conf r) ;;
  models' <- JSONField.db_value json_dumps (Col.models r) ;;
  decks' <- JSONField.db_value json_dumps (Col.decks r) ;;
  dconf' <- JSONField.db_value json_dumps (Col.dconf r) ;;
  tags' <- JSONField.db_value json_dumps (Col.tags r) ;;
  Done {| Col.id := Col.id r; Col.crt := Col.crt r; Col.mod_ := Col.mod_ r;
          Col.scm := Col.scm r; Col.ver := Col.ver r; Col.dty := Col.dty r;
          Col.usn := Col.usn r; Col.ls := Col.ls r; Col.conf := conf';
          Col.models := models'; Col.decks := decks'; Col.dconf := dconf';
          Col.tags := tags' |}.

#[local] Instance col_model : Model (Col.row string) :=
  {| pk := Col.id;
     set_pk := fun r v =>
       {| Col.id := v; Col.crt := Col.crt r; Col.mod_ := Col.mod_ r;
          Col.scm := Col.scm r; Col.ver := Col.ver r; Col.dty := Col.dty r;
          Col.usn := Col.usn r; Col.ls := Col.ls r; Col.conf := Col.conf r;
          Col.models := Col.models r; Col.decks := Col.decks r; Col.dconf := Col.dconf r;
          Col.tags := Col.tags r |};
     pk_set_pk := fun _ _ => eq_refl |}.

(** Saving the collection row. *)
Definition col (now : Q) (tbl : Db.table (Col.row string)) (instance : Col.row pyval)
    (created : bool) : outcome (Col.row string) * Db.table (Col.row string) :=
  commit no_clash tbl (col_encode (Col.col_pre_save now instance created)) (fun r => r) created.

End ColSave.

End Save.

(** ** Sample data *)

Module Sample.

Definition entry (i : Z) : Revlog.row :=
  {| Revlog.id := i; Revlog.cid := Some 1; Revlog.usn := -1; Revlog.ease := Some 3;
     Revlog.ivl := Some 4; Revlog.lastIvl := Some 1; Revlog.factor := Some 2500;
     Revlog.time := Some 6000; Revlog.type := Some 1 |}.

(** A review log holding the ids 5, 6 and 7. *)
Definition revlog567 : Db.table Revlog.row := [entry 5; entry 6; entry 7].

(** A collection with one name at the top level and the same name again
    inside a nested dict, inside a list, under another key of the nested
    dict, and as a plain string. *)
Definition nested_names : list (string * pyval) :=
  [("1", PDict [("name", PStr "Default"); ("id", PInt 1);
                ("sub", PDict [("name", PStr "Default")])]);
   ("2", PDict [("id", PInt 2); ("inner", PDict [("name", PStr "Default")])]);
   ("3", PList [PDict [("name", PStr "Default")]; PDict [("name", PStr "Default")]]);
   ("4", PStr "Default")].

(** Two decks with different names, as [Col.decks] holds them. *)
Definition two_decks : list (string * pyval) :=
  [("1", PDict [("name", PStr "Default"); ("id", PInt 1); ("dyn", PBool false);
                ("conf", PInt 1); ("desc", PStr EmptyString)]);
   ("1398130078204", PDict [("name", PStr "French"); ("id", PInt 1398130078204);
                            ("dyn", PBool false); ("conf", PInt 1);
                            ("terms", PList [PStr "verbe"; PStr "nom"])])].

(** A collection whose two names are one and the same list. *)
Definition list_name_twice : list (string * pyval) :=
  [("1", PDict [("name", PList [PStr "x"])]);
   ("2", PDict [("name", PList [PStr "x"])])].

(** The collection row that holds [decks] in its [decks] column and empty
    dicts in the four others. *)
Definition collection (decks : pyval) : Col.row pyval :=
  {| Col.id := 1; Col.crt := 1700000000; Col.mod_ := None; Col.scm := 1700000000000;
     Col.ver := 11; Col.dty := 0; Col.usn := 0; Col.ls := 0; Col.conf := PDict [];
     Col.models := PDict []; Col.decks := decks; Col.dconf := PDict [];
     Col.tags := PDict [] |}.

(** A collection whose one name is a list. *)
Definition list_name : list (string * pyval) :=
  [("1", PDict [("name", PList [])])].

(** A collection whose first two names are equal and whose third is a
    list. *)
Definition repeated_then_list : list (string * pyval) :=
  [("1", PDict [("name", PStr "D")]);
   ("2", PDict [("name", PStr "D")]);
   ("3", PDict [("name", PList [])])].

(** The tag made of a TAB and the letter a. *)
Definition tab_a : string := String (ascii_of_N 9) "a".

(** A note with the given id, guid and fields. *)
Definition note (i : Z) (g : string) (fields : list string) : Notes.row :=
  {| Notes.id := i; Notes.guid := g; Notes.mid := Some 1342697561419; Notes.mod_ := None;
     Notes.usn := -1; Notes.tags := []; Notes.flds := fields; Notes.sfld := None;
     Notes.csum := None; Notes.flags := 0; Notes.data := EmptyString |}.

(** A generator whose draws are the letters A, B, C, ... *)
Definition letters (n : nat) : string := String (ascii_of_nat (65 + n)) EmptyString.

(** Stand-ins for the two helpers of [ankisync.anki_util], for text without
    markup: the text itself and its length. *)
Definition plain (text : string) : string := text.
Definition length_sum (text : string) : Z := Z.of_nat (String.length text).

(** A new card of note 12345 whose [due] was not given. *)
Definition card12345 : Cards.row :=
  {| Cards.id := 1700000000000; Cards.nid := Some 12345; Cards.did := Some 1;
     Cards.ord := Some 0; Cards.mod_ := None; Cards.usn := -1; Cards.type := 0;
     Cards.queue := 0; Cards.due := None; Cards.ivl := 0; Cards.factor := 0;
     Cards.reps := 0; Cards.lapses := 0; Cards.left := 0; Cards.odue := 0;
     Cards.odid := 0; Cards.flags := 0; Cards.data := EmptyString |}.

End Sample.

(** * Properties *)

(** ** The identifier loop *)

Section IdLoop.

Context {R : Type} `{Model R}.

Lemma get_or_none_id_None (tbl : Db.table R) (i : Z) :
  Db.get_or_none_id tbl i = None <-> ~ In i (Db.ids tbl).
Proof.
  unfold Db.get_or_none_id, Db.ids.
  induction tbl as [|r tbl IH]; simpl.
  - tauto.
  - destruct (Z.eqb_spec (pk r) i) as [E|E].
    + split; [discriminate | intros N; elim N; now left].
    + rewrite IH. tauto.
Qed.

Lemma get_or_none_id_Some (tbl : Db.table R) (i : Z) (r : R) :
  Db.get_or_none_id tbl i = Some r -> In r tbl /\ pk r = i.
Proof.
  unfold Db.get_or_none_id. intros F. apply find_some in F.
  destruct F as [F1 F2]. split; [assumption | now apply Z.eqb_eq].
Qed.

Lemma max_id_bounds (tbl : Db.table R) (m : Z) :
  Db.max_id tbl = Some m ->
  In m (Db.ids tbl) /\ forall i, In i (Db.ids tbl) -> i <= m.
Proof.
  revert m. induction tbl as [|r tbl IH]; simpl; intros m E.
  - discriminate.
  - destruct (Db.max_id tbl) as [m'|] eqn:Em.
    + injection E as <-. destruct (IH m' eq_refl) as [I U]. split.
      * destruct (Z.max_spec (pk r) m') as [[_ ->]|[_ ->]]; auto.
      * intros i [<-|Hi]; [lia | specialize (U i Hi); lia].
    + injection E as <-. destruct tbl as [|r' tbl'].
      * split; [now left | intros i [<-|[]]; lia].
      * simpl in Em. destruct (Db.max_id tbl'); discriminate.
Qed.

Lemma max_id_of_member (tbl : Db.table R) (i : Z) :
  In i (Db.ids tbl) -> exists m, Db.max_id tbl = Some m.
Proof.
  destruct tbl as [|r tbl]; simpl; [tauto|].
  intros _. destruct (Db.max_id tbl); eauto.
Qed.

Lemma succ_max_id_absent (tbl : Db.table R) (m : Z) :
  Db.max_id tbl = Some m -> ~ In (m + 1) (Db.ids tbl).
Proof.
  intros E I. apply max_id_bounds in E. destruct E as [_ U].
  specialize (U _ I). lia.
Qed.

(** The loop, case by case: one check when the id is free, two otherwise. *)
Lemma while_id_exists_free (fuel : nat) (tbl : Db.table R) (instance : R) :
  ~ In (pk instance) (Db.ids tbl) ->
  Db.while_id_exists (S fuel) tbl instance = Done instance.
Proof.
  intros N. simpl. apply get_or_none_id_None in N. now rewrite N.
Qed.

Lemma while_id_exists_taken (fuel : nat) (tbl : Db.table R) (instance : R) :
  In (pk instance) (Db.ids tbl) ->
  exists m, Db.max_id tbl = Some m /\
    Db.while_id_exists (S (S fuel)) tbl instance = Done (set_pk instance (m + 1)).
Proof.
  intros I. destruct (max_id_of_member _ _ I) as [m Em]. exists m. split; [assumption|].
  cbn [Db.while_id_exists].
  destruct (Db.get_or_none_id tbl (pk instance)) eqn:G.
  - rewrite Em. cbn [Db.plus_one bind].
    assert (N : Db.get_or_none_id tbl (pk (set_pk instance (m + 1))) = None).
    { apply get_or_none_id_None. rewrite pk_set_pk. now apply succ_max_id_absent. }
    now rewrite N.
  - apply get_or_none_id_None in G. contradiction.
Qed.

Lemma In_ids_dec (tbl : Db.table R) (i : Z) : {In i (Db.ids tbl)} + {~ In i (Db.ids tbl)}.
Proof. apply in_dec, Z.eq_dec. Qed.

(** With two checks or more the loop returns, and what it returns has an id
    the table does not hold. *)
Lemma while_id_exists_returns (fuel : nat) (tbl : Db.table R) (instance : R) :
  (2 <= fuel)%nat ->
  exists r, Db.while_id_exists fuel tbl instance = Done r /\ ~ In (pk r) (Db.ids tbl) /\
    (~ In (pk instance) (Db.ids tbl) -> r = instance) /\
    (In (pk instance) (Db.ids tbl) ->
       exists m, Db.max_id tbl = Some m /\ r = set_pk instance (m + 1)).
Proof.
  intros F. destruct fuel as [|[|fuel]]; try lia.
  destruct (In_ids_dec tbl (pk instance)) as [I|N].
  - destruct (while_id_exists_taken fuel tbl instance I) as [m [Em W]].
    exists (set_pk instance (m + 1)). split; [assumption|]. split.
    + rewrite pk_set_pk. now apply succ_max_id_absent.
    + split; [contradiction | intros _; eauto].
  - exists instance. split; [now apply while_id_exists_free|].
    split; [assumption|]. split; [reflexivity | contradiction].
Qed.

End IdLoop.

(** The loop is total from two checks on, and changes the id alone. *)
Lemma allocator_free_id_total {R : Type} `{Model R} (tbl : Db.table R) (instance : R) :
  exists r,
    Db.while_id_exists 2 tbl instance = Done r /\
    (forall fuel, (2 <= fuel)%nat -> Db.while_id_exists fuel tbl instance = Done r) /\
    (r = instance \/ exists m, r = set_pk instance (m + 1)).
Proof.
  destruct (while_id_exists_returns 2 tbl instance (le_n 2)) as [r [W [A [K J]]]].
  exists r. split; [assumption|]. split.
  - intros fuel F.
    destruct (while_id_exists_returns fuel tbl instance F) as [r' [W' [_ [K' J']]]].
    rewrite W'. f_equal.
    destruct (In_ids_dec tbl (pk instance)) as [I|N].
    + destruct (J I) as [m [Em ->]]. destruct (J' I) as [m' [Em' ->]]. congruence.
    + rewrite (K N), (K' N). reflexivity.
  - destruct (In_ids_dec tbl (pk instance)) as [I|N].
    + right. destruct (J I) as [m [_ ->]]. eauto.
    + left. auto.
Qed.

(** C1. For every table and every candidate id the identifier loop returns
    within two evaluations of its condition, and the id it returns is absent
    from the table: the candidate itself when no row holds it, and otherwise
    the greatest id of the table plus one. On a review log holding 5, 6 and 7
    the candidate 5 becomes 8, not 6. *)
Theorem allocator_returns_free_id :
  (forall (R : Type) (M : Model R) (tbl : Db.table R) (instance : R),
     exists r,
       Db.while_id_exists 2 tbl instance = Done r /\
       ~ In (pk r) (Db.ids tbl) /\
       (~ In (pk instance) (Db.ids tbl) -> r = instance) /\
       (In (pk instance) (Db.ids tbl) ->
          exists m, Db.max_id tbl = Some m /\ In m (Db.ids tbl) /\
            (forall i, In i (Db.ids tbl) -> i <= m) /\ r = set_pk instance (m + 1)) /\
       (forall fuel, (2 <= fuel)%nat -> Db.while_id_exists fuel tbl instance = Done r)) /\
  Db.while_id_exists 2 Sample.revlog567 (Sample.entry 5) = Done (Sample.entry 8) /\
  Db.while_id_exists 2 Sample.revlog567 (Sample.entry 5) <> Done (Sample.entry 6).
Proof.
  split; [|split; [reflexivity | discriminate]].
  intros R M tbl instance.
  destruct (while_id_exists_returns 2 tbl instance (le_n 2)) as [r [W [A [K J]]]].
  exists r. split; [assumption|]. split; [assumption|]. split; [assumption|]. split.
  - intros I. destruct (J I) as [m [Em ->]]. exists m.
    destruct (max_id_bounds _ _ Em) as [Im U]. auto.
  - intros fuel F.
    destruct (while_id_exists_returns fuel tbl instance F) as [r' [W' [_ [K' J']]]].
    rewrite W'. f_equal.
    destruct (In_ids_dec tbl (pk instance)) as [I|N].
    + destruct (J I) as [m [Em ->]]. destruct (J' I) as [m' [Em' ->]]. congruence.
    + rewrite (K N), (K' N). reflexivity.
Qed.

(** ** Writes after a hook *)

Section WriteFacts.

Context {R : Type} `{Model R}.

Variable clash : R -> R -> bool.

Lemma pk_held_false (tbl : Db.table R) (i : Z) :
  ~ In i (Db.ids tbl) -> existsb (fun x => pk x =? i) tbl = false.
Proof.
  unfold Db.ids. induction tbl as [|x tbl IH]; simpl; intros N; [reflexivity|].
  destruct (Z.eqb_spec (pk x) i) as [E|E]; [elim N; now left|].
  apply IH. tauto.
Qed.

Lemma insert_fresh (tbl : Db.table R) (r : R) :
  ~ In (pk r) (Db.ids tbl) -> existsb (clash r) tbl = false ->
  Save.insert clash tbl r = Done (tbl ++ [r])%list.
Proof.
  intros N C. unfold Save.insert. now rewrite (pk_held_false _ _ N), C.
Qed.

Lemma update_fresh (tbl : Db.table R) (r : R) :
  ~ In (pk r) (Db.ids tbl) -> Save.update clash tbl r = Done tbl.
Proof.
  intros N. unfold Save.update. rewrite (pk_held_false _ _ N). simpl. f_equal.
  unfold Db.ids in N. induction tbl as [|x tbl IH]; simpl; [reflexivity|].
  destruct (Z.eqb_spec (pk x) (pk r)) as [E|E].
  - elim N. left. assumption.
  - f_equal. apply IH. simpl in N. tauto.
Qed.

End WriteFacts.

(** ** Cards *)

Lemma cards_pre_save_returns (fuel : nat) (now : Q) (tbl : Db.table Cards.row)
    (instance : Cards.row) (created : bool) :
  (2 <= fuel)%nat ->
  exists r0,
    Db.while_id_exists fuel tbl instance = Done r0 /\
    ~ In (Cards.id r0) (Db.ids tbl) /\
    Cards.nid r0 = Cards.nid instance /\ Cards.due r0 = Cards.due instance /\
    Cards.cards_pre_save fuel now tbl instance created =
      Done (match Cards.due r0 with
            | None => Cards.set_due (Cards.set_mod r0 (int now)) (Cards.nid r0)
            | Some _ => Cards.set_mod r0 (int now)
            end).
Proof.
  intros F. destruct (while_id_exists_returns fuel tbl instance F) as [r0 [W [A [K J]]]].
  exists r0. split; [assumption|]. split; [assumption|].
  assert (E : Cards.nid r0 = Cards.nid instance /\ Cards.due r0 = Cards.due instance).
  { destruct (In_ids_dec tbl (pk instance)) as [I|N].
    - destruct (J I) as [m [_ ->]]. split; reflexivity.
    - rewrite (K N). split; reflexivity. }
  destruct E as [E1 E2]. split; [assumption|]. split; [assumption|].
  unfold Cards.cards_pre_save. rewrite W. cbn [bind].
  cbn [Cards.due Cards.set_mod]. destruct (Cards.due r0); reflexivity.
Qed.

(** C7. The Card hook returns, sets [mod] to [int(time())] and sets [due] to
    the card's [nid] exactly when [due] is [None], keeping a [due] that is
    set; a created card is then stored as the hook left it, so a new card with
    no [due] and [nid = 12345] is stored with [due = 12345]. *)
Theorem cards_pre_save_mod_and_default_due :
  (forall (now : Q) (tbl : Db.table Cards.row) (instance : Cards.row) (created : bool),
     exists r,
       Cards.cards_pre_save 2 now tbl instance created = Done r /\
       Cards.mod_ r = Some (int now) /\
       Cards.due r = match Cards.due instance with
                     | None => Cards.nid instance
                     | Some d => Some d
                     end /\
       Save.cards 2 now tbl instance true = (Done r, (tbl ++ [r])%list)) /\
  (forall (now : Q) (tbl : Db.table Cards.row),
     exists r,
       Save.cards 2 now tbl Sample.card12345 true = (Done r, (tbl ++ [r])%list) /\
       Cards.due r = Some 12345).
Proof.
  assert (G : forall now tbl instance created,
     exists r,
       Cards.cards_pre_save 2 now tbl instance created = Done r /\
       Cards.mod_ r = Some (int now) /\
       Cards.due r = match Cards.due instance with
                     | None => Cards.nid instance
                     | Some d => Some d
                     end /\
       Save.cards 2 now tbl instance true = (Done r, (tbl ++ [r])%list)).
  { intros now tbl instance created.
    destruct (cards_pre_save_returns 2 now tbl instance created (le_n 2))
      as [r0 [W [A [En [Ed P]]]]].
    destruct (cards_pre_save_returns 2 now tbl instance true (le_n 2))
      as [r1 [W1 [_ [_ [_ P1]]]]].
    assert (r1 = r0) by congruence. subst r1.
    eexists. split; [exact P|].
    split; [destruct (Cards.due r0); reflexivity|].
    split.
    - rewrite <- Ed, <- En. destruct (Cards.due r0) eqn:D; cbn; auto.
    - unfold Save.cards, Save.commit. rewrite P1. unfold Save.write.
      rewrite insert_fresh; [reflexivity| |].
      + destruct (Cards.due r0); exact A.
      + clear. induction tbl; simpl; auto. }
  split; [exact G|].
  intros now tbl. destruct (G now tbl Sample.card12345 true) as [r [_ [_ [D S]]]].
  exists r. split; [exact S | exact D].
Qed.

(** ** Revlog *)

(** C10. The ReviewLogEntry hook returns, and the entry it returns differs
    from the one it was given in the [id] column at most: [cid], [usn],
    [ease], [ivl], [lastIvl], [factor], [time] and [type] are kept, and the
    entry carries no modification time. *)
Theorem revlog_pre_save_changes_id_only :
  forall (tbl : Db.table Revlog.row) (instance : Revlog.row) (created : bool),
    exists r,
      Revlog.revlog_pre_save 2 tbl instance created = Done r /\
      (forall fuel, (2 <= fuel)%nat -> Revlog.revlog_pre_save fuel tbl instance created = Done r) /\
      r = Revlog.set_id instance (Revlog.id r) /\
      Revlog.cid r = Revlog.cid instance /\
      Revlog.usn r = Revlog.usn instance /\
      Revlog.ease r = Revlog.ease instance /\
      Revlog.ivl r = Revlog.ivl instance /\
      Revlog.lastIvl r = Revlog.lastIvl instance /\
      Revlog.factor r = Revlog.factor instance /\
      Revlog.time r = Revlog.time instance /\
      Revlog.type r = Revlog.type instance.
Proof.
  intros tbl instance created. unfold Revlog.revlog_pre_save.
  destruct allocator_free_id_total with (tbl := tbl) (instance := instance)
    as [r [W [F E]]].
  exists r. split; [assumption|]. split; [assumption|].
  destruct E as [->|[m ->]]; destruct instance; cbn; repeat split; reflexivity.
Qed.

(** ** Joining and splitting *)

Section JoinSplit.

Variable c : ascii.

Lemma split_no_sep (s : string) :
  contains c s = false -> split c s = [s].
Proof.
  induction s as [|a s IH]; simpl; intros N; [reflexivity|].
  apply orb_false_iff in N. destruct N as [Na Ns].
  rewrite Na, (IH Ns). reflexivity.
Qed.

Lemma split_app_sep (s rest : string) :
  contains c s = false -> split c (s ++ String c rest) = s :: split c rest.
Proof.
  induction s as [|a s IH]; simpl; intros N.
  - now rewrite Ascii.eqb_refl.
  - apply orb_false_iff in N. destruct N as [Na Ns].
    rewrite Na, (IH Ns). reflexivity.
Qed.

Lemma join_cons2 (sep s t : string) (rest : list string) :
  join sep (s :: t :: rest) = s ++ sep ++ join sep (t :: rest).
Proof. reflexivity. Qed.

Lemma split_join (l : list string) :
  l <> [] -> Forall (fun s => contains c s = false) l ->
  split c (join (String c EmptyString) l) = l.
Proof.
  induction l as [|s [|t rest] IH]; intros NE F.
  - contradiction.
  - simpl. apply split_no_sep. now inversion F.
  - rewrite join_cons2. inversion F as [|? ? Fs Frest]; subst.
    change (String c EmptyString ++ join (String c EmptyString) (t :: rest))
      with (String c (join (String c EmptyString) (t :: rest))).
    rewrite (split_app_sep _ _ Fs). f_equal.
    apply IH; [discriminate | assumption].
Qed.

Lemma split_not_nil (s : string) : split c s <> [].
Proof.
  destruct s as [|a s]; simpl; [discriminate|].
  destruct (Ascii.eqb a c); [discriminate|].
  destruct (split c s); discriminate.
Qed.

End JoinSplit.

(** ** ListField *)

(** C5, as the code has it. A sequence of strings that is not empty and
    whose elements hold no U+001F is encoded to a text that decodes to the
    same sequence; the empty sequence is encoded to [None], never to a
    joined text. *)
Theorem ListField_roundtrip_nonempty :
  forall L : list string,
    L <> [] ->
    Forall (fun s => contains US s = false) L ->
    ListField.python_value (ListField.db_value L) = Done L /\
    ListField.db_value [] = None.
Proof.
  intros L NE F. split; [|reflexivity].
  destruct L as [|s rest]; [contradiction|].
  unfold ListField.db_value, ListField.python_value. f_equal.
  apply split_join; assumption.
Qed.

Lemma ListField_roundtrip_nonempty_witness :
  ListField.python_value (ListField.db_value ["front"; ""; "back"]) =
    Done ["front"; ""; "back"] /\
  ListField.db_value [] = None.
Proof.
  apply (ListField_roundtrip_nonempty ["front"; ""; "back"]).
  - discriminate.
  - repeat constructor.
Defined.

(** C5 fails at the empty sequence: its encoding is [None], decoding [None]
    raises, and no stored text at all decodes to the empty sequence. *)
Lemma ListField_roundtrip_fails_on_empty :
  ListField.db_value [] = None /\
  ListField.python_value (ListField.db_value []) =
    Raise (AttributeError "'NoneType' object has no attribute 'split'") /\
  ListField.python_value (ListField.db_value []) <> Done [] /\
  (forall text : string, ListField.python_value (Some text) <> Done []).
Proof.
  split; [reflexivity|]. split; [reflexivity|]. split; [discriminate|].
  intros text E. unfold ListField.python_value in E. injection E as E.
  exact (split_not_nil _ _ E).
Qed.

(** ** TagField *)

Lemma lstrip_id (s : string) : starts_with_space s = false -> lstrip s = s.
Proof. destruct s as [|a s]; simpl; [reflexivity | now intros ->]. Qed.

Lemma last_char_cons (a : ascii) (s : string) :
  s <> EmptyString -> last_char (String a s) = last_char s.
Proof. destruct s; [contradiction | reflexivity]. Qed.

Lemma last_char_None (s : string) : last_char s = None -> s = EmptyString.
Proof.
  induction s as [|a s IH]; [reflexivity|].
  destruct s as [|b s]; [discriminate|].
  intros E. rewrite last_char_cons in E by discriminate. specialize (IH E). discriminate.
Qed.

Lemma last_char_app (s t : string) :
  t <> EmptyString -> last_char (s ++ t) = last_char t.
Proof.
  intros NE. induction s as [|a s IH]; [reflexivity|].
  change (String a s ++ t) with (String a (s ++ t)).
  rewrite last_char_cons; [assumption|].
  destruct s; simpl; [assumption | discriminate].
Qed.

Lemma rstrip_id (s : string) : ends_with_space s = false -> rstrip s = s.
Proof.
  unfold ends_with_space. induction s as [|a s IH]; [reflexivity|].
  destruct s as [|b s].
  - simpl. now intros ->.
  - rewrite last_char_cons by discriminate. intros E.
    change (rstrip (String a (String b s)))
      with (match rstrip (String b s) with
            | EmptyString => if isspace a then EmptyString else String a EmptyString
            | r => String a r
            end).
    rewrite (IH E). reflexivity.
Qed.

Lemma join_last_char (sep : string) (l : list string) :
  last l EmptyString <> EmptyString ->
  last_char (join sep l) = last_char (last l EmptyString).
Proof.
  induction l as [|s [|t rest] IH]; intros NE.
  - reflexivity.
  - reflexivity.
  - rewrite join_cons2. change (last (s :: t :: rest) EmptyString)
      with (last (t :: rest) EmptyString) in *.
    specialize (IH NE).
    assert (J : join sep (t :: rest) <> EmptyString).
    { intros Z. rewrite Z in IH. symmetry in IH. apply last_char_None in IH. contradiction. }
    rewrite last_char_app.
    + rewrite last_char_app; assumption.
    + destruct sep; simpl; [assumption | discriminate].
Qed.

Lemma strip_join_id (sep : string) (l : list string) :
  Forall (fun t => t <> EmptyString) l ->
  starts_with_space (hd EmptyString l) = false ->
  ends_with_space (last l EmptyString) = false ->
  strip (join sep l) = join sep l.
Proof.
  intros NE Hs He. unfold strip.
  destruct l as [|t rest]; [reflexivity|].
  assert (L : last (t :: rest) EmptyString <> EmptyString).
  { assert (I : In (last (t :: rest) EmptyString) (t :: rest)).
    { clear. revert t. induction rest as [|u rest IH]; intros t; [now left|].
      right. apply IH. }
    rewrite Forall_forall in NE. exact (NE _ I). }
  rewrite lstrip_id.
  - apply rstrip_id. unfold ends_with_space in *.
    rewrite join_last_char; assumption.
  - inversion NE as [|? ? Nt _]; subst. simpl in Hs.
    destruct t as [|a t]; [contradiction|].
    destruct rest; exact Hs.
Qed.

(** C6, as the code has it. A sequence of tags that is not empty, whose tags
    are not empty and hold no space, and whose first tag does not begin and
    last tag does not end with a whitespace character, is encoded to a text
    that decodes to the same sequence, in the same order; and the empty text
    decodes to the one-element sequence holding the empty string. *)
Theorem TagField_roundtrip_clean_edges :
  forall T : list string,
    T <> [] ->
    Forall (fun t => t <> EmptyString /\ contains SP t = false) T ->
    starts_with_space (hd EmptyString T) = false ->
    ends_with_space (last T EmptyString) = false ->
    TagField.python_value (TagField.db_value T) = T /\
    Permutation (TagField.python_value (TagField.db_value T)) T /\
    TagField.python_value EmptyString = [EmptyString].
Proof.
  intros T NE F Hs He.
  assert (E : TagField.python_value (TagField.db_value T) = T).
  { unfold TagField.python_value, TagField.db_value.
    rewrite strip_join_id; [|eapply Forall_impl; [|exact F]; now intros t [? _] | assumption..].
    apply split_join; [assumption|].
    eapply Forall_impl; [|exact F]. now intros t [_ ?]. }
  split; [exact E|]. split; [rewrite E; apply Permutation_refl | reflexivity].
Qed.

Lemma TagField_roundtrip_clean_edges_witness :
  TagField.python_value (TagField.db_value ["leech"; "verbs::irregular"; "ch3"]) =
    ["leech"; "verbs::irregular"; "ch3"] /\
  Permutation (TagField.python_value (TagField.db_value ["leech"; "verbs::irregular"; "ch3"]))
    ["leech"; "verbs::irregular"; "ch3"] /\
  TagField.python_value EmptyString = [EmptyString].
Proof.
  apply (TagField_roundtrip_clean_edges ["leech"; "verbs::irregular"; "ch3"]).
  - discriminate.
  - repeat constructor; discriminate.
  - reflexivity.
  - reflexivity.
Defined.

(** C6 fails for a tag that begins with a TAB: the tag is not empty and holds
    no space, yet [strip] removes the TAB and the decoded sequence is another
    one, whatever the order. *)
Lemma TagField_roundtrip_fails_on_tab :
  [Sample.tab_a] <> [] /\
  Forall (fun t => t <> EmptyString /\ contains SP t = false) [Sample.tab_a] /\
  TagField.python_value (TagField.db_value [Sample.tab_a]) = ["a"] /\
  ~ Permutation (TagField.python_value (TagField.db_value [Sample.tab_a])) [Sample.tab_a].
Proof.
  split; [discriminate|]. split; [repeat constructor; discriminate|].
  split; [reflexivity|].
  intros P. apply Permutation_length_1 in P. discriminate.
Qed.

(** ** Notes *)

Section GuidLoop.

Variable tbl : Db.table Notes.row.
Variable guid64 : nat -> string.

Lemma get_or_none_guid_None (g : string) :
  Notes.get_or_none_guid tbl g = None <-> ~ In g (Notes.guids tbl).
Proof.
  unfold Notes.get_or_none_guid, Notes.guids.
  induction tbl as [|r t IH]; simpl.
  - tauto.
  - destruct (String.eqb_spec (Notes.guid r) g) as [E|E].
    + split; [discriminate | intros N; elim N; now left].
    + rewrite IH. tauto.
Qed.

Lemma In_guids_dec (g : string) : {In g (Notes.guids tbl)} + {~ In g (Notes.guids tbl)}.
Proof. apply in_dec, string_dec. Qed.

Lemma while_guid_exists_free (fuel cursor : nat) (instance : Notes.row) :
  ~ In (Notes.guid instance) (Notes.guids tbl) ->
  Notes.while_guid_exists (S fuel) tbl guid64 cursor instance = Done (instance, cursor).
Proof.
  intros N. simpl. apply get_or_none_guid_None in N. now rewrite N.
Qed.

Lemma while_guid_exists_taken (fuel cursor : nat) (instance : Notes.row) :
  In (Notes.guid instance) (Notes.guids tbl) ->
  Notes.while_guid_exists (S fuel) tbl guid64 cursor instance =
  Notes.while_guid_exists fuel tbl guid64 (S cursor)
    (Notes.set_guid instance (guid64 cursor)).
Proof.
  intros I. simpl. destruct (Notes.get_or_none_guid tbl (Notes.guid instance)) eqn:G.
  - reflexivity.
  - apply get_or_none_guid_None in G. contradiction.
Qed.

(** When the generator has a draw the table does not hold, [n] calls ahead,
    the loop returns within [n + 2] checks. It keeps a guid no row holds, and
    otherwise leaves the first draw that no row holds. *)
Lemma while_guid_exists_returns (n : nat) :
  forall (fuel cursor : nat) (instance : Notes.row),
    ~ In (guid64 (cursor + n)%nat) (Notes.guids tbl) ->
    (n + 2 <= fuel)%nat ->
    exists r c,
      Notes.while_guid_exists fuel tbl guid64 cursor instance = Done (r, c) /\
      ~ In (Notes.guid r) (Notes.guids tbl) /\
      (~ In (Notes.guid instance) (Notes.guids tbl) -> r = instance /\ c = cursor) /\
      (In (Notes.guid instance) (Notes.guids tbl) ->
         exists k, (k <= n)%nat /\ c = S (cursor + k) /\
           r = Notes.set_guid instance (guid64 (cursor + k)%nat) /\
           forall j, (j < k)%nat -> In (guid64 (cursor + j)%nat) (Notes.guids tbl)).
Proof.
  induction n as [|n IH]; intros fuel cursor instance Fr Fu.
  - destruct fuel as [|[|fuel]]; try lia.
    destruct (In_guids_dec (Notes.guid instance)) as [I|N].
    + rewrite (while_guid_exists_taken _ _ _ I).
      rewrite Nat.add_0_r in Fr.
      rewrite while_guid_exists_free by exact Fr.
      do 2 eexists. split; [reflexivity|]. split; [exact Fr|].
      split; [contradiction|]. intros _. exists 0%nat.
      rewrite Nat.add_0_r. repeat split; auto. intros j L. lia.
    + rewrite (while_guid_exists_free _ _ _ N).
      do 2 eexists. split; [reflexivity|]. split; [exact N|].
      split; [auto | contradiction].
  - destruct fuel as [|fuel]; try lia.
    destruct (In_guids_dec (Notes.guid instance)) as [I|N].
    + rewrite (while_guid_exists_taken _ _ _ I).
      destruct (IH fuel (S cursor) (Notes.set_guid instance (guid64 cursor)))
        as [r [c [W [A [K J]]]]].
      { replace (S cursor + n)%nat with (cursor + S n)%nat by lia. exact Fr. }
      { lia. }
      exists r, c. split; [exact W|]. split; [exact A|].
      split; [contradiction|]. intros _.
      destruct (In_guids_dec (guid64 cursor)) as [I'|N'].
      * destruct (J I') as [k [Lk [Ec [Er Hj]]]].
        exists (S k). split; [lia|].
        replace (cursor + S k)%nat with (S cursor + k)%nat by lia.
        split; [exact Ec|]. split; [rewrite Er; reflexivity|].
        intros j Lj. destruct j as [|j].
        -- now rewrite Nat.add_0_r.
        -- replace (cursor + S j)%nat with (S cursor + j)%nat by lia. apply Hj. lia.
      * destruct (K N') as [Er Ec]. exists 0%nat.
        rewrite Nat.add_0_r. split; [lia|]. split; [exact Ec|]. split; [exact Er|].
        intros j L. lia.
    + rewrite (while_guid_exists_free _ _ _ N).
      do 2 eexists. split; [reflexivity|]. split; [exact N|].
      split; [auto | contradiction].
Qed.

End GuidLoop.

Section NotesHook.

Variable stripHTMLMedia : string -> string.
Variable field_checksum : string -> Z.

(** The hook in one equation: the id loop, the guid loop, the assignments. *)
Lemma notes_pre_save_returns (n fuel : nat) (now : Q) (guid64 : nat -> string) (cursor : nat)
    (tbl : Db.table Notes.row) (instance : Notes.row) (created : bool) (f0 : string)
    (rest : list string) :
  Notes.flds instance = f0 :: rest ->
  ~ In (guid64 (cursor + n)%nat) (Notes.guids tbl) ->
  (n + 2 <= fuel)%nat ->
  exists r0 r1 c,
    Notes.notes_pre_save stripHTMLMedia field_checksum fuel now guid64 cursor tbl instance created
      = Done (Notes.stamped stripHTMLMedia field_checksum now f0 r1, c) /\
    (* the id loop *)
    ~ In (Notes.id r0) (Db.ids tbl) /\
    (~ In (Notes.id instance) (Db.ids tbl) -> r0 = instance) /\
    (In (Notes.id instance) (Db.ids tbl) ->
       exists m, Db.max_id tbl = Some m /\ r0 = Notes.set_id instance (m + 1)) /\
    (* the guid loop *)
    ~ In (Notes.guid r1) (Notes.guids tbl) /\
    (~ In (Notes.guid instance) (Notes.guids tbl) -> r1 = r0 /\ c = cursor) /\
    (In (Notes.guid instance) (Notes.guids tbl) ->
       exists k, (k <= n)%nat /\ c = S (cursor + k) /\
         r1 = Notes.set_guid r0 (guid64 (cursor + k)%nat) /\
         forall j, (j < k)%nat -> In (guid64 (cursor + j)%nat) (Notes.guids tbl)).
Proof.
  intros Fl Fr Fu.
  destruct (while_id_exists_returns fuel tbl instance) as [r0 [W0 [A0 [K0 J0]]]]; [lia|].
  destruct (while_guid_exists_returns tbl guid64 n fuel cursor r0 Fr Fu)
    as [r1 [c [W1 [A1 [K1 J1]]]]].
  assert (E0 : Notes.guid r0 = Notes.guid instance /\ Notes.flds r0 = Notes.flds instance).
  { destruct (In_ids_dec tbl (pk instance)) as [I|N].
    - destruct (J0 I) as [m [_ ->]]. split; reflexivity.
    - rewrite (K0 N). split; reflexivity. }
  destruct E0 as [Eg Ef]. rewrite Eg in K1, J1.
  assert (E1 : Notes.flds r1 = Notes.flds r0).
  { destruct (In_guids_dec tbl (Notes.guid instance)) as [I|N].
    - destruct (J1 I) as [k [_ [_ [-> _]]]]. reflexivity.
    - destruct (K1 N) as [-> _]. reflexivity. }
  exists r0, r1, c.
  split; [|split; [exact A0 | split; [exact K0 | split; [exact J0 |
           split; [exact A1 | split; [exact K1 | exact J1]]]]]].
  unfold Notes.notes_pre_save. rewrite W0. cbn [bind]. rewrite W1. cbn [bind fst snd].
  cbn [Notes.flds Notes.set_mod].
  rewrite E1, Ef, Fl. reflexivity.
Qed.

(** Whatever the loops return differs from the instance in [id] and [guid]
    at most. *)
Lemma while_id_exists_frame (fuel : nat) (tbl : Db.table Notes.row) :
  forall instance r : Notes.row,
    Db.while_id_exists fuel tbl instance = Done r -> r = Notes.set_id instance (Notes.id r).
Proof.
  induction fuel as [|fuel IH]; intros instance r; simpl; [discriminate|].
  destruct (Db.get_or_none_id tbl (Notes.id instance)).
  - destruct (Db.max_id tbl) as [m|]; simpl; [|discriminate].
    intros W. apply IH in W. rewrite W. reflexivity.
  - intros W. injection W as <-. destruct instance; reflexivity.
Qed.

Lemma while_guid_exists_frame (fuel : nat) (tbl : Db.table Notes.row) (guid64 : nat -> string) :
  forall (cursor : nat) (instance r : Notes.row) (c : nat),
    Notes.while_guid_exists fuel tbl guid64 cursor instance = Done (r, c) ->
    r = Notes.set_guid instance (Notes.guid r).
Proof.
  induction fuel as [|fuel IH]; intros cursor instance r c; simpl; [discriminate|].
  destruct (Notes.get_or_none_guid tbl (Notes.guid instance)).
  - intros W. apply IH in W. rewrite W. reflexivity.
  - intros W. injection W as <- _. destruct instance; reflexivity.
Qed.

(** What a hook that returned has left in [sfld] and [csum]. *)
Lemma notes_pre_save_Done (fuel : nat) (now : Q) (guid64 : nat -> string) (cursor : nat)
    (tbl : Db.table Notes.row) (instance : Notes.row) (created : bool)
    (r : Notes.row) (c : nat) :
  Notes.notes_pre_save stripHTMLMedia field_checksum fuel now guid64 cursor tbl instance created
    = Done (r, c) ->
  exists f0 rest,
    Notes.flds instance = f0 :: rest /\
    Notes.sfld r = Some (stripHTMLMedia f0) /\
    Notes.csum r = Some (field_checksum (stripHTMLMedia f0)).
Proof.
  unfold Notes.notes_pre_save.
  destruct (Db.while_id_exists fuel tbl instance) as [r0| |] eqn:W0; cbn [bind]; try discriminate.
  destruct (Notes.while_guid_exists fuel tbl guid64 cursor r0) as [[r1 c1]| |] eqn:W1;
    cbn [bind fst snd]; try discriminate.
  apply while_id_exists_frame in W0. apply while_guid_exists_frame in W1.
  cbn [Notes.flds Notes.set_mod].
  assert (E : Notes.flds r1 = Notes.flds instance) by (rewrite W1, W0; reflexivity).
  rewrite E. destruct (Notes.flds instance) as [|f0 rest]; cbn; [discriminate|].
  intros D. injection D as <- _. exists f0, rest. repeat split.
Qed.

(** The hook never reads the [sfld] and [csum] it was given. *)
Lemma while_id_exists_supply (s : option string) (k : option Z) (fuel : nat)
    (tbl : Db.table Notes.row) :
  forall instance : Notes.row,
    Db.while_id_exists fuel tbl (Notes.supply instance s k) =
    (r <- Db.while_id_exists fuel tbl instance ;; Done (Notes.supply r s k)).
Proof.
  induction fuel as [|fuel IH]; intros instance; simpl; [reflexivity|].
  destruct (Db.get_or_none_id tbl (Notes.id instance)); [|reflexivity].
  destruct (Db.max_id tbl) as [m|]; simpl; [|reflexivity].
  apply (IH (Notes.set_id instance (m + 1))).
Qed.

Lemma while_guid_exists_supply (s : option string) (k : option Z) (fuel : nat)
    (tbl : Db.table Notes.row) (guid64 : nat -> string) :
  forall (cursor : nat) (instance : Notes.row),
    Notes.while_guid_exists fuel tbl guid64 cursor (Notes.supply instance s k) =
    (rc <- Notes.while_guid_exists fuel tbl guid64 cursor instance ;;
     Done (Notes.supply (fst rc) s k, snd rc)).
Proof.
  induction fuel as [|fuel IH]; intros cursor instance; simpl; [reflexivity|].
  destruct (Notes.get_or_none_guid tbl (Notes.guid instance)); [|reflexivity].
  apply (IH (S cursor) (Notes.set_guid instance (guid64 cursor))).
Qed.

Lemma notes_pre_save_supply (s : option string) (k : option Z) (fuel : nat) (now : Q)
    (guid64 : nat -> string) (cursor : nat) (tbl : Db.table Notes.row)
    (instance : Notes.row) (created : bool) :
  Notes.notes_pre_save stripHTMLMedia field_checksum fuel now guid64 cursor tbl
    (Notes.supply instance s k) created =
  Notes.notes_pre_save stripHTMLMedia field_checksum fuel now guid64 cursor tbl
    instance created.
Proof.
  unfold Notes.notes_pre_save. rewrite while_id_exists_supply.
  destruct (Db.while_id_exists fuel tbl instance) as [r0| |]; cbn [bind]; try reflexivity.
  rewrite while_guid_exists_supply.
  destruct (Notes.while_guid_exists fuel tbl guid64 cursor r0) as [[r1 c1]| |];
    cbn [bind fst snd]; reflexivity.
Qed.

(** C2. On every save of a note that has a first field, created or updated,
    the hook returns with [sfld] set to [stripHTMLMedia(flds[0])] and [csum]
    to [field_checksum] of that [sfld]; an [sfld] or [csum] supplied by the
    caller changes nothing of the result; and two saved notes whose first
    fields are equal once stripped have equal [csum]. *)
Theorem notes_pre_save_derives_sfld_csum :
  forall (n fuel : nat) (now : Q) (guid64 : nat -> string) (cursor : nat)
    (tbl : Db.table Notes.row) (instance : Notes.row) (created : bool)
    (f0 : string) (rest : list string),
    Notes.flds instance = f0 :: rest ->
    ~ In (guid64 (cursor + n)%nat) (Notes.guids tbl) ->
    (n + 2 <= fuel)%nat ->
    exists r c,
      Notes.notes_pre_save stripHTMLMedia field_checksum fuel now guid64 cursor tbl
        instance created = Done (r, c) /\
      Notes.sfld r = Some (stripHTMLMedia f0) /\
      Notes.csum r = Some (field_checksum (stripHTMLMedia f0)) /\
      (forall (s : option string) (k : option Z),
         Notes.notes_pre_save stripHTMLMedia field_checksum fuel now guid64 cursor tbl
           (Notes.supply instance s k) created = Done (r, c)) /\
      (forall (fuel' : nat) (now' : Q) (guid64' : nat -> string) (cursor' : nat)
         (tbl' : Db.table Notes.row) (instance' : Notes.row) (created' : bool)
         (f0' : string) (rest' : list string) (r' : Notes.row) (c' : nat),
         Notes.flds instance' = f0' :: rest' ->
         Notes.notes_pre_save stripHTMLMedia field_checksum fuel' now' guid64' cursor' tbl'
           instance' created' = Done (r', c') ->
         stripHTMLMedia f0' = stripHTMLMedia f0 ->
         Notes.csum r' = Notes.csum r).
Proof.
  intros n fuel now guid64 cursor tbl instance created f0 rest Fl Fr Fu.
  destruct (notes_pre_save_returns n fuel now guid64 cursor tbl instance created f0 rest
              Fl Fr Fu) as [r0 [r1 [c [P _]]]].
  exists (Notes.stamped stripHTMLMedia field_checksum now f0 r1), c.
  split; [exact P|]. split; [reflexivity|]. split; [reflexivity|]. split.
  - intros s k. rewrite notes_pre_save_supply. exact P.
  - intros fuel' now' guid64' cursor' tbl' instance' created' f0' rest' r' c' Fl' P' E.
    apply notes_pre_save_Done in P'. destruct P' as [g0 [grest [Fl'' [_ C]]]].
    rewrite Fl' in Fl''. injection Fl'' as <- _.
    rewrite C, E. reflexivity.
Qed.

(** What a hook that returned has left in [id] and [guid]: values no row of
    the table holds. *)
Lemma while_id_exists_Done (fuel : nat) (tbl : Db.table Notes.row) :
  forall instance r : Notes.row,
    Db.while_id_exists fuel tbl instance = Done r -> ~ In (Notes.id r) (Db.ids tbl).
Proof.
  induction fuel as [|fuel IH]; intros instance r; simpl; [discriminate|].
  destruct (Db.get_or_none_id tbl (Notes.id instance)) eqn:G.
  - destruct (Db.max_id tbl) as [m|]; simpl; [|discriminate]. apply IH.
  - intros W. injection W as <-. now apply get_or_none_id_None in G.
Qed.

Lemma while_guid_exists_Done (fuel : nat) (tbl : Db.table Notes.row) (guid64 : nat -> string) :
  forall (cursor : nat) (instance r : Notes.row) (c : nat),
    Notes.while_guid_exists fuel tbl guid64 cursor instance = Done (r, c) ->
    ~ In (Notes.guid r) (Notes.guids tbl).
Proof.
  induction fuel as [|fuel IH]; intros cursor instance r c; simpl; [discriminate|].
  destruct (Notes.get_or_none_guid tbl (Notes.guid instance)) eqn:G.
  - apply IH.
  - intros W. injection W as <- _. now apply get_or_none_guid_None in G.
Qed.

Lemma notes_pre_save_Done_fresh (fuel : nat) (now : Q) (guid64 : nat -> string) (cursor : nat)
    (tbl : Db.table Notes.row) (instance : Notes.row) (created : bool)
    (r : Notes.row) (c : nat) :
  Notes.notes_pre_save stripHTMLMedia field_checksum fuel now guid64 cursor tbl instance created
    = Done (r, c) ->
  ~ In (Notes.id r) (Db.ids tbl) /\ ~ In (Notes.guid r) (Notes.guids tbl).
Proof.
  unfold Notes.notes_pre_save.
  destruct (Db.while_id_exists fuel tbl instance) as [r0| |] eqn:W0; cbn [bind]; try discriminate.
  destruct (Notes.while_guid_exists fuel tbl guid64 cursor r0) as [[r1 c1]| |] eqn:W1;
    cbn [bind fst snd]; try discriminate.
  cbn [Notes.flds Notes.set_mod].
  destruct (Notes.flds r1) as [|f0 rest]; cbn; [discriminate|].
  intros D. injection D as <- _. cbn.
  apply while_id_exists_Done in W0. pose proof (while_guid_exists_frame _ _ _ _ _ _ _ W1) as F1.
  apply while_guid_exists_Done in W1. split; [|exact W1].
  rewrite F1. exact W0.
Qed.

(** C8. When a note is saved again, its id and guid being those of a stored
    row, the hook finds that row in both loops: it returns with the id set to
    the greatest id of the table plus one and the guid set to a draw of the
    generator that no row holds, whether or not any other row shares the old
    id or guid. *)
Theorem notes_pre_save_resave_renews_id_and_guid :
  forall (n fuel : nat) (now : Q) (guid64 : nat -> string) (cursor : nat)
    (tbl : Db.table Notes.row) (instance stored : Notes.row) (created : bool)
    (f0 : string) (rest : list string),
    In stored tbl ->
    Notes.id stored = Notes.id instance ->
    Notes.guid stored = Notes.guid instance ->
    Notes.flds instance = f0 :: rest ->
    ~ In (guid64 (cursor + n)%nat) (Notes.guids tbl) ->
    (n + 2 <= fuel)%nat ->
    exists r c m k,
      Notes.notes_pre_save stripHTMLMedia field_checksum fuel now guid64 cursor tbl
        instance created = Done (r, c) /\
      Db.max_id tbl = Some m /\ (forall i, In i (Db.ids tbl) -> i <= m) /\
      Notes.id r = m + 1 /\ Notes.id r <> Notes.id instance /\
      (k <= n)%nat /\ c = S (cursor + k) /\
      Notes.guid r = guid64 (cursor + k)%nat /\ Notes.guid r <> Notes.guid instance /\
      ~ In (Notes.guid r) (Notes.guids tbl).
Proof.
  intros n fuel now guid64 cursor tbl instance stored created f0 rest
    Is Ei Eg Fl Fr Fu.
  assert (Ii : In (Notes.id instance) (Db.ids tbl)).
  { rewrite <- Ei. unfold Db.ids. exact (in_map pk tbl stored Is). }
  assert (Ig : In (Notes.guid instance) (Notes.guids tbl)).
  { rewrite <- Eg. unfold Notes.guids. apply in_map. exact Is. }
  destruct (notes_pre_save_returns n fuel now guid64 cursor tbl instance created f0 rest
              Fl Fr Fu) as [r0 [r1 [c [P [A0 [_ [J0 [A1 [_ J1]]]]]]]]].
  destruct (J0 Ii) as [m [Em E0]]. destruct (J1 Ig) as [k [Lk [Ec [E1 _]]]].
  exists (Notes.stamped stripHTMLMedia field_checksum now f0 r1), c, m, k.
  split; [exact P|]. split; [exact Em|].
  destruct (max_id_bounds _ _ Em) as [_ U]. split; [exact U|].
  assert (Hid : Notes.id (Notes.stamped stripHTMLMedia field_checksum now f0 r1) = m + 1).
  { rewrite E1, E0. reflexivity. }
  assert (Hg : Notes.guid (Notes.stamped stripHTMLMedia field_checksum now f0 r1)
               = guid64 (cursor + k)%nat).
  { rewrite E1. reflexivity. }
  split; [exact Hid|]. split.
  { rewrite Hid. specialize (U _ Ii). lia. }
  split; [exact Lk|]. split; [exact Ec|]. split; [exact Hg|].
  assert (A : ~ In (guid64 (cursor + k)%nat) (Notes.guids tbl)).
  { rewrite E1 in A1. exact A1. }
  split; [|rewrite Hg; exact A].
  rewrite Hg. intros E. rewrite E in A. contradiction.
Qed.

End NotesHook.

Lemma notes_pre_save_derives_sfld_csum_witness :
  exists r c,
    Notes.notes_pre_save Sample.plain Sample.length_sum 3 (1700000000 # 1) Sample.letters 0
      [Sample.note 1 "A" ["old"]] (Sample.note 1 "A" ["Hello"; "answer"]) false = Done (r, c) /\
    Notes.sfld r = Some "Hello" /\ Notes.csum r = Some 5.
Proof.
  destruct (notes_pre_save_derives_sfld_csum Sample.plain Sample.length_sum
              1 3 (1700000000 # 1) Sample.letters 0
              [Sample.note 1 "A" ["old"]] (Sample.note 1 "A" ["Hello"; "answer"]) false
              "Hello" ["answer"]) as [r [c [P [S [C _]]]]].
  - reflexivity.
  - simpl. intros [E|[]]. discriminate E.
  - lia.
  - exists r, c. split; [exact P|]. split; [exact S | exact C].
Defined.

Lemma notes_pre_save_resave_renews_id_and_guid_witness :
  exists r c m k,
    Notes.notes_pre_save Sample.plain Sample.length_sum 2 (1700000000 # 1) Sample.letters 1
      [Sample.note 1 "A" ["old"]] (Sample.note 1 "A" ["Hello"; "answer"]) false = Done (r, c) /\
    Db.max_id [Sample.note 1 "A" ["old"]] = Some m /\
    (forall i, In i (Db.ids [Sample.note 1 "A" ["old"]]) -> i <= m) /\
    Notes.id r = m + 1 /\ Notes.id r <> 1 /\
    (k <= 0)%nat /\ c = S (1 + k) /\
    Notes.guid r = Sample.letters (1 + k)%nat /\ Notes.guid r <> "A" /\
    ~ In (Notes.guid r) (Notes.guids [Sample.note 1 "A" ["old"]]).
Proof.
  apply (notes_pre_save_resave_renews_id_and_guid Sample.plain Sample.length_sum
           0 2 (1700000000 # 1) Sample.letters 1
           [Sample.note 1 "A" ["old"]] (Sample.note 1 "A" ["Hello"; "answer"])
           (Sample.note 1 "A" ["old"]) false "Hello" ["answer"]).
  - now left.
  - reflexivity.
  - reflexivity.
  - reflexivity.
  - simpl. intros [E|[]]. discriminate E.
  - lia.
Defined.

(** ** Saving notes *)

Lemma NoDup_snoc {A : Type} (l : list A) (a : A) :
  NoDup l -> ~ In a l -> NoDup (l ++ [a]).
Proof.
  induction l as [|b l IH]; simpl; intros N I.
  - constructor; [tauto | constructor].
  - inversion N as [|? ? Nb Nl]; subst. constructor.
    + rewrite in_app_iff. simpl. intros [Hb|[Hb|[]]]; [contradiction|].
      apply I. now left.
    + apply IH; [assumption|]. tauto.
Qed.

Lemma guid_held_false (tbl : Db.table Notes.row) (r : Notes.row) :
  ~ In (Notes.guid r) (Notes.guids tbl) -> existsb (Save.notes_clash r) tbl = false.
Proof.
  unfold Notes.guids, Save.notes_clash.
  induction tbl as [|x tbl IH]; simpl; intros N; [reflexivity|].
  destruct (String.eqb_spec (Notes.guid x) (Notes.guid r)) as [E|E]; [elim N; now left|].
  apply IH. tauto.
Qed.

(** Overwriting a row by one whose id and guid no row holds keeps ids and
    guids distinct. *)
Lemma overwrite_absent (tbl : Db.table Notes.row) (old : Z) (r : Notes.row) :
  ~ In old (Db.ids tbl) -> Save.overwrite tbl old r = tbl.
Proof.
  unfold Save.overwrite, Db.ids. induction tbl as [|x tbl IH]; simpl; intros N; [reflexivity|].
  destruct (Z.eqb_spec (Notes.id x) old) as [E|E]; [elim N; now left|].
  f_equal. apply IH. tauto.
Qed.

Lemma overwrite_unique (tbl : Db.table Notes.row) (old : Z) (r : Notes.row) :
  NoDup (Notes.guids tbl) -> NoDup (Db.ids tbl) ->
  ~ In (Notes.id r) (Db.ids tbl) -> ~ In (Notes.guid r) (Notes.guids tbl) ->
  NoDup (Notes.guids (Save.overwrite tbl old r)) /\
  NoDup (Db.ids (Save.overwrite tbl old r)).
Proof.
  induction tbl as [|x tbl IH]; intros Ng Ni Fi Fg; [split; constructor|].
  unfold Notes.guids, Db.ids in *. simpl in Ng, Ni, Fi, Fg.
  inversion Ng as [|? ? Gx Gt]; inversion Ni as [|? ? Ix It]; subst.
  change (Save.overwrite (x :: tbl) old r)
    with ((if Notes.id x =? old then r else x) :: Save.overwrite tbl old r).
  destruct (Z.eqb_spec (Notes.id x) old) as [E|E].
  - rewrite overwrite_absent by (unfold Db.ids; now rewrite <- E).
    simpl. split; constructor; tauto.
  - destruct IH as [Hg Hi]; try tauto.
    assert (S : forall y, In y (Save.overwrite tbl old r) -> y = r \/ In y tbl).
    { intros y I. unfold Save.overwrite in I. apply in_map_iff in I.
      destruct I as [z [Ez Iz]]. destruct (Notes.id z =? old); subst; auto. }
    simpl. split; constructor; try assumption.
    + intros I. apply in_map_iff in I. destruct I as [y [Ey Iy]].
      destruct (S y Iy) as [->|Iy'].
      * apply Fg. left. now symmetry.
      * apply Gx. rewrite <- Ey. now apply in_map.
    + intros I. apply in_map_iff in I. destruct I as [y [Ey Iy]].
      destruct (S y Iy) as [->|Iy'].
      * apply Fi. left. now symmetry.
      * apply Ix. simpl in Ey. rewrite <- Ey. exact (in_map pk tbl y Iy').
Qed.

Section NotesSaveFacts.

Variable stripHTMLMedia : string -> string.
Variable field_checksum : string -> Z.

(** The write that follows a hook that returned is never refused. *)
Lemma notes_save_after_hook (fuel : nat) (now : Q) (guid64 : nat -> string) (cursor : nat)
    (tbl : Db.table Notes.row) (instance : Notes.row) (created : bool)
    (r : Notes.row) (c : nat) :
  Notes.notes_pre_save stripHTMLMedia field_checksum fuel now guid64 cursor tbl instance created
    = Done (r, c) ->
  Save.notes stripHTMLMedia field_checksum fuel now guid64 cursor tbl instance created
    = (Done (r, c), if created then (tbl ++ [r])%list else tbl).
Proof.
  intros P. destruct (notes_pre_save_Done_fresh _ _ _ _ _ _ _ _ _ _ _ P) as [Ni Ng].
  unfold Save.notes, Save.commit. rewrite P. cbn [fst]. unfold Save.write.
  destruct created.
  - rewrite insert_fresh; [reflexivity | exact Ni | now apply guid_held_false].
  - rewrite update_fresh; [reflexivity | exact Ni].
Qed.

Lemma notes_save_table (fuel : nat) (now : Q) (guid64 : nat -> string) (cursor : nat)
    (tbl : Db.table Notes.row) (instance : Notes.row) (created : bool) :
  snd (Save.notes stripHTMLMedia field_checksum fuel now guid64 cursor tbl instance created)
    = tbl \/
  exists r,
    snd (Save.notes stripHTMLMedia field_checksum fuel now guid64 cursor tbl instance created)
      = (tbl ++ [r])%list /\
    ~ In (Notes.id r) (Db.ids tbl) /\ ~ In (Notes.guid r) (Notes.guids tbl).
Proof.
  destruct (Notes.notes_pre_save stripHTMLMedia field_checksum fuel now guid64 cursor tbl
              instance created) as [[r c]| |] eqn:P.
  - rewrite (notes_save_after_hook _ _ _ _ _ _ _ _ _ P).
    destruct created; [right | now left].
    exists r. split; [reflexivity|]. exact (notes_pre_save_Done_fresh _ _ _ _ _ _ _ _ _ _ _ P).
  - left. unfold Save.notes, Save.commit. rewrite P. reflexivity.
  - left. unfold Save.notes, Save.commit. rewrite P. reflexivity.
Qed.

Lemma reachable_unique (tbl : Db.table Notes.row) :
  Save.reachable stripHTMLMedia field_checksum tbl ->
  NoDup (Notes.guids tbl) /\ NoDup (Db.ids tbl).
Proof.
  induction 1 as [|tbl fuel now guid64 cursor instance created Re [Ng Ni]
                  |tbl fuel now guid64 cursor instance r c Re [Ng Ni] P].
  - split; constructor.
  - destruct (notes_save_table fuel now guid64 cursor tbl instance created)
      as [->|[r [-> [Fi Fg]]]]; [now split|].
    unfold Notes.guids, Db.ids. rewrite !map_app. simpl.
    split; apply NoDup_snoc; assumption.
  - destruct (notes_pre_save_Done_fresh _ _ _ _ _ _ _ _ _ _ _ P) as [Fi Fg].
    now apply overwrite_unique.
Qed.

(** C3, as the code has it. The Note hook draws a new guid while any row of
    the table holds the instance's guid, the stored row of the note being
    saved included. Provided the generator comes to a draw that no row holds,
    the hook returns with a guid that no row holds: the instance's own guid,
    with no draw made, when no row held it, and otherwise the first draw
    that no row holds. The write that follows is not refused, and no table
    reached by a run of note saves has two rows with one guid. *)
Theorem notes_guid_regenerated_while_any_row_holds_it :
  (forall (n fuel : nat) (now : Q) (guid64 : nat -> string) (cursor : nat)
     (tbl : Db.table Notes.row) (instance : Notes.row) (created : bool)
     (f0 : string) (rest : list string),
     Notes.flds instance = f0 :: rest ->
     ~ In (guid64 (cursor + n)%nat) (Notes.guids tbl) ->
     (n + 2 <= fuel)%nat ->
     exists r c,
       Notes.notes_pre_save stripHTMLMedia field_checksum fuel now guid64 cursor tbl
         instance created = Done (r, c) /\
       ~ In (Notes.guid r) (Notes.guids tbl) /\
       (~ In (Notes.guid instance) (Notes.guids tbl) ->
          Notes.guid r = Notes.guid instance /\ c = cursor) /\
       (In (Notes.guid instance) (Notes.guids tbl) ->
          exists k, (k <= n)%nat /\ Notes.guid r = guid64 (cursor + k)%nat /\
            c = S (cursor + k) /\
            forall j, (j < k)%nat -> In (guid64 (cursor + j)%nat) (Notes.guids tbl)) /\
       fst (Save.notes stripHTMLMedia field_checksum fuel now guid64 cursor tbl
              instance created) = Done (r, c) /\
       (created = true ->
          snd (Save.notes stripHTMLMedia field_checksum fuel now guid64 cursor tbl
                 instance created) = (tbl ++ [r])%list)) /\
  (forall tbl : Db.table Notes.row,
     Save.reachable stripHTMLMedia field_checksum tbl ->
     NoDup (Notes.guids tbl) /\ NoDup (Db.ids tbl)).
Proof.
  split; [|exact reachable_unique].
  intros n fuel now guid64 cursor tbl instance created f0 rest Fl Fr Fu.
  destruct (notes_pre_save_returns stripHTMLMedia field_checksum
              n fuel now guid64 cursor tbl instance created f0 rest Fl Fr Fu)
    as [r0 [r1 [c [P [_ [K0 [J0 [A1 [K1 J1]]]]]]]]].
  assert (G0 : Notes.guid r0 = Notes.guid instance).
  { destruct (In_ids_dec tbl (pk instance)) as [I|N].
    - destruct (J0 I) as [m [_ ->]]. reflexivity.
    - now rewrite (K0 N). }
  exists (Notes.stamped stripHTMLMedia field_checksum now f0 r1), c.
  split; [exact P|]. split; [exact A1|]. split; [|split].
  - intros N. destruct (K1 N) as [-> ->]. split; [exact G0 | reflexivity].
  - intros I. destruct (J1 I) as [k [Lk [Ec [E1 Hj]]]]. exists k.
    split; [exact Lk|]. split; [rewrite E1; reflexivity|]. split; assumption.
  - rewrite (notes_save_after_hook _ _ _ _ _ _ _ _ _ P). split; [reflexivity|].
    now intros ->.
Qed.

End NotesSaveFacts.

Lemma notes_guid_regenerated_while_any_row_holds_it_witness :
  exists r c,
    Notes.notes_pre_save Sample.plain Sample.length_sum 2 (1700000000 # 1) Sample.letters 1
      [Sample.note 1 "A" ["old"]] (Sample.note 2 "Z" ["Hello"; "answer"]) true = Done (r, c) /\
    Notes.guid r = "Z" /\ c = 1%nat /\
    snd (Save.notes Sample.plain Sample.length_sum 2 (1700000000 # 1) Sample.letters 1
           [Sample.note 1 "A" ["old"]] (Sample.note 2 "Z" ["Hello"; "answer"]) true)
      = [Sample.note 1 "A" ["old"]; r].
Proof.
  destruct (proj1 (notes_guid_regenerated_while_any_row_holds_it
                     Sample.plain Sample.length_sum)
              0%nat 2%nat (1700000000 # 1) Sample.letters 1%nat
              [Sample.note 1 "A" ["old"]] (Sample.note 2 "Z" ["Hello"; "answer"]) true
              "Hello" ["answer"]) as [r [c [P [_ [K [_ [_ S]]]]]]].
  - reflexivity.
  - simpl. intros [E|[]]. discriminate E.
  - lia.
  - exists r, c. split; [exact P|].
    destruct K as [Kg Kc]; [simpl; intros [E|[]]; discriminate E|].
    split; [exact Kg|]. split; [exact Kc|]. exact (S eq_refl).
Defined.

(** C3 fails when a stored note is saved again. No row other than its own
    holds its guid, yet the hook finds its own row and replaces the guid by
    the next draw. *)
Lemma notes_guid_replaced_on_resave :
  (forall x, In x [Sample.note 1 "A" ["old"]] ->
     Notes.id x <> Notes.id (Sample.note 1 "A" ["Hello"]) ->
     Notes.guid x <> Notes.guid (Sample.note 1 "A" ["Hello"])) /\
  (exists r,
     Notes.notes_pre_save Sample.plain Sample.length_sum 2 (1700000000 # 1) Sample.letters 1
       [Sample.note 1 "A" ["old"]] (Sample.note 1 "A" ["Hello"]) false = Done (r, 2%nat) /\
     Notes.guid r = "B" /\
     Notes.guid r <> Notes.guid (Sample.note 1 "A" ["Hello"])).
Proof.
  split.
  - intros x [<-|[]] N. elim N. reflexivity.
  - eexists. split; [reflexivity|]. split; [reflexivity | discriminate].
Qed.

(** ** JSONField: the scan of the names *)

Lemma key_eqb_sym (a b : pykey) : PyVal.key_eqb a b = PyVal.key_eqb b a.
Proof.
  destruct a as [|x|x|x], b as [|y|y|y]; simpl; try reflexivity.
  - destruct x, y; reflexivity.
  - apply Z.eqb_sym.
  - apply String.eqb_sym.
Qed.

(** One step of the scan, by what the value at hand is. *)
Lemma scan_unnamed (v : pyval) (rest : list pyval) (seen : list pykey) :
  JSONField.name_of v = None ->
  JSONField.scan (v :: rest) seen = JSONField.scan rest seen.
Proof.
  unfold JSONField.name_of. intros E. simpl.
  destruct v; try reflexivity. now rewrite E.
Qed.

Lemma scan_named (v name : pyval) (k : pykey) (rest : list pyval) (seen : list pykey) :
  JSONField.name_of v = Some name -> PyVal.hashed name = Done k ->
  JSONField.scan (v :: rest) seen =
    if PyVal.set_mem k seen
    then Raise (ValueError ("Duplicate name: " ++ PyVal.str k))
    else JSONField.scan rest (k :: seen).
Proof.
  unfold JSONField.name_of. intros E Hk. simpl.
  destruct v; try discriminate. now rewrite E, Hk.
Qed.

Lemma scan_unhashable (v name : pyval) (e : exc) (rest : list pyval) (seen : list pykey) :
  JSONField.name_of v = Some name -> PyVal.hashed name = Raise e ->
  JSONField.scan (v :: rest) seen = Raise e.
Proof.
  unfold JSONField.name_of. intros E Hk. simpl.
  destruct v; try discriminate. now rewrite E, Hk.
Qed.

Lemma duplicate_names_cons (v : pyval) (rest : list pyval) :
  JSONField.duplicate_names (v :: rest) <->
  (exists a v' b, JSONField.name_key v = Some a /\ In v' rest /\
     JSONField.name_key v' = Some b /\ PyVal.key_eqb a b = true) \/
  JSONField.duplicate_names rest.
Proof.
  split.
  - inversion 1; subst; [left | right]; eauto 8.
  - intros [[a [v' [b [Ea [I [Eb E]]]]]]|D].
    + eapply JSONField.dup_first; eauto.
    + now apply JSONField.dup_later.
Qed.

(** The scan against a set [seen]: either it ends quietly and no name is
    met twice, or it raises the duplicate-name error and one is. *)
Lemma scan_spec (vs : list pyval) :
  JSONField.hashable_names vs ->
  forall seen : list pykey,
    (JSONField.scan vs seen = Done tt /\
     ~ (JSONField.duplicate_names vs \/ JSONField.seen_before vs seen)) \/
    (exists k, JSONField.scan vs seen = Raise (ValueError ("Duplicate name: " ++ PyVal.str k)) /\
       (JSONField.duplicate_names vs \/ JSONField.seen_before vs seen)).
Proof.
  induction vs as [|v rest IH]; intros H seen.
  - left. split; [reflexivity|]. intros [D|[v [k [[] _]]]]. inversion D.
  - assert (Hrest : JSONField.hashable_names rest).
    { intros v2 name I. apply H. now right. }
    destruct (JSONField.name_of v) as [name|] eqn:En.
    + destruct (H v name (or_introl eq_refl) En) as [k Hk].
      assert (Ek : JSONField.name_key v = Some k).
      { unfold JSONField.name_key. now rewrite En, Hk. }
      rewrite (scan_named _ _ _ _ _ En Hk).
      destruct (PyVal.set_mem k seen) eqn:M.
      * right. exists k. split; [reflexivity|]. right. exists v, k.
        split; [now left | split; assumption].
      * destruct (IH Hrest (k :: seen)) as [[S N]|[k' [S C]]].
        -- left. split; [exact S|]. intros [D|[v' [k' [[<-|I] [Ek' M']]]]].
           ++ apply duplicate_names_cons in D.
              destruct D as [[a [v' [b [Ea [I [Eb E]]]]]]|D].
              ** apply N. right. exists v', b. split; [exact I|]. split; [exact Eb|].
                 simpl. rewrite Ek in Ea. injection Ea as <-.
                 rewrite key_eqb_sym, E. reflexivity.
              ** apply N. now left.
           ++ rewrite Ek in Ek'. injection Ek' as <-. congruence.
           ++ apply N. right. exists v', k'. split; [exact I|]. split; [exact Ek'|].
              simpl. rewrite M'. apply orb_true_r.
        -- right. exists k'. split; [exact S|].
           destruct C as [D|[v' [b [I [Eb M']]]]].
           ++ left. now apply JSONField.dup_later.
           ++ simpl in M'. apply orb_true_iff in M'. destruct M' as [E|M'].
              ** left. eapply JSONField.dup_first; eauto. now rewrite key_eqb_sym.
              ** right. exists v', b. split; [now right | split; assumption].
    + assert (Ek : JSONField.name_key v = None).
      { unfold JSONField.name_key. now rewrite En. }
      rewrite (scan_unnamed _ _ _ En).
      destruct (IH Hrest seen) as [[S N]|[k' [S C]]].
      * left. split; [exact S|]. intros [D|[v' [k' [[<-|I] [Ek' M']]]]].
        -- apply duplicate_names_cons in D.
           destruct D as [[a [v' [b [Ea _]]]]|D]; [congruence|]. apply N. now left.
        -- congruence.
        -- apply N. right. exists v', k'. auto.
      * right. exists k'. split; [exact S|].
        destruct C as [D|[v' [b [I [Eb M']]]]].
        -- left. now apply JSONField.dup_later.
        -- right. exists v', b. split; [now right | split; assumption].
Qed.

Lemma seen_before_nil (vs : list pyval) : ~ JSONField.seen_before vs [].
Proof. intros [v [k [_ [_ M]]]]. discriminate M. Qed.

(** The check of [db_value], on the values of a collection whose names are
    hashable. *)
Lemma scan_from_empty (vs : list pyval) :
  JSONField.hashable_names vs ->
  (JSONField.scan vs [] = Done tt /\ ~ JSONField.duplicate_names vs) \/
  (exists k, JSONField.scan vs [] = Raise (ValueError ("Duplicate name: " ++ PyVal.str k)) /\
     JSONField.duplicate_names vs).
Proof.
  intros H. destruct (scan_spec vs H []) as [[S N]|[k [S C]]].
  - left. split; [exact S|]. intros D. apply N. now left.
  - right. exists k. split; [exact S|].
    destruct C as [D|B]; [exact D | elim (seen_before_nil _ B)].
Qed.

(** [duplicate_names] by places: two places of the list hold dicts with a
    ['name'] key and equal names. *)
Lemma duplicate_names_places (vs : list pyval) :
  JSONField.duplicate_names vs <->
  exists (i j : nat) (vi vj : pyval) (a b : pykey),
    (i < j)%nat /\ nth_error vs i = Some vi /\ nth_error vs j = Some vj /\
    JSONField.name_key vi = Some a /\ JSONField.name_key vj = Some b /\
    PyVal.key_eqb a b = true.
Proof.
  split.
  - induction 1 as [v rest v' a b Ea I Eb E|v rest D IH].
    + destruct (In_nth_error _ _ I) as [j Ej].
      exists 0%nat, (S j), v, v', a, b. repeat split; auto. lia.
    + destruct IH as [i [j [vi [vj [a [b [L [Ei [Ej R]]]]]]]]].
      exists (S i), (S j), vi, vj, a, b. repeat split; try tauto. lia.
  - induction vs as [|v rest IH]; intros [i [j [vi [vj [a [b [L [Ei [Ej [Ea [Eb E]]]]]]]]]]].
    + destruct i; discriminate Ei.
    + destruct j as [|j]; [lia|]. simpl in Ej. destruct i as [|i].
      * simpl in Ei. injection Ei as ->.
        eapply JSONField.dup_first; eauto using nth_error_In.
      * simpl in Ei. apply JSONField.dup_later, IH.
        exists i, j, vi, vj, a, b. repeat split; auto. lia.
Qed.

(** What hashing a name gives. *)
Lemma hashed_outcomes (name : pyval) :
  (exists k, PyVal.hashed name = Done k) \/
  PyVal.hashed name = Raise (TypeError ("unhashable type: '" ++ PyVal.type_name name ++ "'")).
Proof. destruct name; simpl; eauto. Qed.

(** The scan ends quietly or raises one of its two errors. *)
Lemma scan_outcomes (vs : list pyval) :
  forall seen : list pykey,
    JSONField.scan vs seen = Done tt \/
    (exists msg, JSONField.scan vs seen = Raise (ValueError msg)) \/
    (exists msg, JSONField.scan vs seen = Raise (TypeError msg)).
Proof.
  induction vs as [|v0 rest IH]; intros seen; [now left|].
  destruct (JSONField.name_of v0) as [name|] eqn:En.
  - destruct (hashed_outcomes name) as [[k0 Hk]|Hk].
    + rewrite (scan_named _ _ _ _ _ En Hk).
      destruct (PyVal.set_mem k0 seen); [right; left; eauto | apply IH].
    + rewrite (scan_unhashable _ _ _ _ _ En Hk). right. right. eauto.
  - rewrite (scan_unnamed _ _ _ En). apply IH.
Qed.

(** A scan that ended quietly met hashable names only. *)
Lemma scan_Done_hashable (vs : list pyval) :
  forall seen : list pykey,
    JSONField.scan vs seen = Done tt -> JSONField.hashable_names vs.
Proof.
  induction vs as [|v0 rest IH]; intros seen S v2 name I E; [destruct I|].
  destruct (JSONField.name_of v0) as [n0|] eqn:En.
  - destruct (hashed_outcomes n0) as [[k0 Hk]|Hk].
    + rewrite (scan_named _ _ _ _ _ En Hk) in S.
      destruct (PyVal.set_mem k0 seen); [discriminate|].
      destruct I as [<-|I]; [|exact (IH _ S v2 name I E)].
      rewrite En in E. injection E as <-. eauto.
    + rewrite (scan_unhashable _ _ _ _ _ En Hk) in S. discriminate.
  - rewrite (scan_unnamed _ _ _ En) in S.
    destruct I as [<-|I]; [congruence | exact (IH _ S v2 name I E)].
Qed.

Lemma name_key_Some (v : pyval) (k : pykey) :
  JSONField.name_key v = Some k <->
  exists name, JSONField.name_of v = Some name /\ PyVal.hashed name = Done k.
Proof.
  unfold JSONField.name_key. split.
  - destruct (JSONField.name_of v) as [name|]; [|discriminate].
    destruct (PyVal.hashed name) as [k0| |] eqn:Hk; try discriminate.
    intros E. injection E as <-. eauto.
  - intros [name [-> ->]]. reflexivity.
Qed.

(** A scan that raises stops at some value: the values before it pass, and
    the value holds a name that cannot be hashed, or a name that is in the
    set by then. *)
Lemma scan_Raise_stops (vs : list pyval) :
  forall (seen : list pykey) (e : exc),
    JSONField.scan vs seen = Raise e ->
    exists l1 v l2,
      vs = (l1 ++ v :: l2)%list /\ JSONField.scan l1 seen = Done tt /\
      ((exists name, JSONField.name_of v = Some name /\ PyVal.hashed name = Raise e) \/
       (exists k, JSONField.name_key v = Some k /\
          e = ValueError ("Duplicate name: " ++ PyVal.str k) /\
          (PyVal.set_mem k seen = true \/
           exists v' a, In v' l1 /\ JSONField.name_key v' = Some a /\
                        PyVal.key_eqb k a = true))).
Proof.
  induction vs as [|v0 rest IH]; intros seen e; [discriminate|].
  destruct (JSONField.name_of v0) as [name|] eqn:En.
  - destruct (hashed_outcomes name) as [[k0 Hk]|Hk].
    + assert (Ek : JSONField.name_key v0 = Some k0).
      { unfold JSONField.name_key. now rewrite En, Hk. }
      rewrite (scan_named _ _ _ _ _ En Hk).
      destruct (PyVal.set_mem k0 seen) eqn:M.
      * intros E. injection E as <-. exists [], v0, rest. split; [reflexivity|].
        split; [reflexivity|]. right. exists k0. auto.
      * intros E. apply IH in E. destruct E as [l1 [v [l2 [-> [S C]]]]].
        exists (v0 :: l1), v, l2. split; [reflexivity|]. split.
        { rewrite (scan_named _ _ _ _ _ En Hk), M. exact S. }
        destruct C as [C|[k [Kv [-> C]]]]; [now left|]. right. exists k.
        split; [exact Kv|]. split; [reflexivity|].
        destruct C as [C|[v' [a [I [Ea E]]]]].
        -- simpl in C. apply orb_true_iff in C. destruct C as [C|C]; [|now left].
           right. exists v0, k0. split; [now left | split; assumption].
        -- right. exists v', a. split; [now right | split; assumption].
    + rewrite (scan_unhashable _ _ _ _ _ En Hk). intros E. injection E as <-.
      exists [], v0, rest. split; [reflexivity|]. split; [reflexivity|]. left. eauto.
  - rewrite (scan_unnamed _ _ _ En). intros E. apply IH in E.
    destruct E as [l1 [v [l2 [-> [S C]]]]].
    exists (v0 :: l1), v, l2. split; [reflexivity|]. split.
    { rewrite (scan_unnamed _ _ _ En). exact S. }
    destruct C as [C|[k [Kv [-> C]]]]; [now left|]. right. exists k.
    split; [exact Kv|]. split; [reflexivity|].
    destruct C as [C|[v' [a [I [Ea E]]]]]; [now left|].
    right. exists v', a. split; [now right | split; assumption].
Qed.

(** Conversely, after values that pass, a name that cannot be hashed stops
    the scan with the error of the hash. *)
Lemma scan_stops_unhashable (l1 : list pyval) :
  forall (seen : list pykey) (v : pyval) (l2 : list pyval) (name : pyval) (e : exc),
    JSONField.scan l1 seen = Done tt ->
    JSONField.name_of v = Some name -> PyVal.hashed name = Raise e ->
    JSONField.scan (l1 ++ v :: l2) seen = Raise e.
Proof.
  induction l1 as [|v0 rest IH]; intros seen v l2 name e S En He.
  - exact (scan_unhashable _ _ _ _ _ En He).
  - cbn [app]. destruct (JSONField.name_of v0) as [n0|] eqn:E0.
    + destruct (hashed_outcomes n0) as [[k0 Hk]|Hk].
      * rewrite (scan_named _ _ _ _ _ E0 Hk) in S. rewrite (scan_named _ _ _ _ _ E0 Hk).
        destruct (PyVal.set_mem k0 seen); [discriminate|]. now apply (IH _ _ _ name).
      * rewrite (scan_unhashable _ _ _ _ _ E0 Hk) in S. discriminate.
    + rewrite (scan_unnamed _ _ _ E0) in S. rewrite (scan_unnamed _ _ _ E0). now apply (IH _ _ _ name).
Qed.

(** And a name that is in the set by then stops it with the duplicate-name
    error. *)
Lemma scan_stops_repeated (l1 : list pyval) :
  forall (seen : list pykey) (v : pyval) (l2 : list pyval) (k : pykey),
    JSONField.scan l1 seen = Done tt ->
    JSONField.name_key v = Some k ->
    (PyVal.set_mem k seen = true \/
     exists v' a, In v' l1 /\ JSONField.name_key v' = Some a /\ PyVal.key_eqb k a = true) ->
    JSONField.scan (l1 ++ v :: l2) seen = Raise (ValueError ("Duplicate name: " ++ PyVal.str k)).
Proof.
  induction l1 as [|v0 rest IH]; intros seen v l2 k S Kv C.
  - apply name_key_Some in Kv. destruct Kv as [name [En Hk]].
    cbn [app]. rewrite (scan_named _ _ _ _ _ En Hk).
    destruct C as [->|[v' [a [[] _]]]]. reflexivity.
  - cbn [app]. destruct (JSONField.name_of v0) as [n0|] eqn:E0.
    + destruct (hashed_outcomes n0) as [[k0 Hk]|Hk].
      * assert (K0 : JSONField.name_key v0 = Some k0).
        { unfold JSONField.name_key. now rewrite E0, Hk. }
        rewrite (scan_named _ _ _ _ _ E0 Hk) in S. rewrite (scan_named _ _ _ _ _ E0 Hk).
        destruct (PyVal.set_mem k0 seen); [discriminate|].
        apply IH; [exact S | exact Kv |].
        destruct C as [C|[v' [a [[<-|I] [Ea E]]]]].
        -- left. simpl. rewrite C. apply orb_true_r.
        -- left. simpl. rewrite K0 in Ea. injection Ea as <-. rewrite E. reflexivity.
        -- right. exists v', a. auto.
      * rewrite (scan_unhashable _ _ _ _ _ E0 Hk) in S. discriminate.
    + assert (K0 : JSONField.name_key v0 = None).
      { unfold JSONField.name_key. now rewrite E0. }
      rewrite (scan_unnamed _ _ _ E0) in S. rewrite (scan_unnamed _ _ _ E0).
      apply IH; [exact S | exact Kv |].
      destruct C as [C|[v' [a [[<-|I] [Ea E]]]]]; [now left | congruence |].
      right. exists v', a. auto.
Qed.

(** The check passes exactly the values whose names are hashable, no two of
    them equal. *)
Lemma scan_Done_iff (vs : list pyval) :
  JSONField.scan vs [] = Done tt <->
  JSONField.hashable_names vs /\ ~ JSONField.duplicate_names vs.
Proof.
  split.
  - intros S. pose proof (scan_Done_hashable _ _ S) as H. split; [exact H|].
    destruct (scan_from_empty vs H) as [[_ N]|[k [R _]]]; [exact N | congruence].
  - intros [H N]. destruct (scan_from_empty vs H) as [[S _]|[k [_ D]]]; [exact S | contradiction].
Qed.

(** Every way the check raises: at the first name that cannot be hashed,
    with the [TypeError] of the hash, or at the first name met twice, with
    the duplicate-name [ValueError]. *)
Lemma scan_Raise_iff (vs : list pyval) (e : exc) :
  JSONField.scan vs [] = Raise e <->
  (exists name, JSONField.first_unhashable vs name /\
     e = TypeError ("unhashable type: '" ++ PyVal.type_name name ++ "'")) \/
  (exists k, JSONField.first_repeated vs k /\
     e = ValueError ("Duplicate name: " ++ PyVal.str k)).
Proof.
  split.
  - intros R. apply scan_Raise_stops in R. destruct R as [l1 [v [l2 [-> [S C]]]]].
    apply scan_Done_iff in S. destruct S as [H N].
    destruct C as [[name [En He]]|[k [Kv [-> C]]]].
    + left. exists name. split; [exists l1, v, l2; eauto 6|].
      destruct (hashed_outcomes name) as [[k Hk]|Hk]; congruence.
    + right. exists k. split; [|reflexivity].
      destruct C as [C|[v' [a [I [Ea E]]]]]; [discriminate C|].
      exists l1, v, l2, v', a. auto 8.
  - intros [[name [F ->]]|[k [F ->]]].
    + destruct F as [l1 [v [l2 [-> [H [N [En [e' He]]]]]]]].
      destruct (hashed_outcomes name) as [[k Hk]|Hk]; [congruence|].
      apply (scan_stops_unhashable l1 [] v l2 name); [|exact En | exact Hk].
      apply scan_Done_iff. split; assumption.
    + destruct F as [l1 [v [l2 [v' [a [-> [H [N [Kv [I [Ea E]]]]]]]]]]].
      apply scan_stops_repeated; [|exact Kv | right; eauto].
      apply scan_Done_iff. split; assumption.
Qed.

(** A name that cannot be hashed makes the check stop, there or before. *)
Lemma unhashable_name_stops (vs : list pyval) :
  JSONField.unhashable_name vs ->
  (exists name, JSONField.first_unhashable vs name) \/
  (exists k, JSONField.first_repeated vs k).
Proof.
  intros [v [name [e [I [En He]]]]].
  destruct (JSONField.scan vs []) as [[]|e'|] eqn:S.
  - apply scan_Done_iff in S. destruct S as [H _].
    destruct (H v name I En) as [k Hk]. congruence.
  - apply scan_Raise_iff in S. destruct S as [[n [F _]]|[k [F _]]]; eauto.
  - destruct (scan_outcomes vs []) as [D|[[msg V]|[msg T]]]; congruence.
Qed.

(** C9, as the code has it. For a collection whose top-level names are
    hashable, the check of [db_value] raises exactly when two top-level values,
    at different places, are dicts with a ['name'] key and equal names, and
    what it raises is the duplicate-name [ValueError]; otherwise [db_value]
    is [json.dumps]. A name met again in a nested dict, in a list, or in a
    value that is no dict is not looked at. Whatever the names are, the check
    raises in two ways only: the [TypeError] of the hash, when it reaches a
    name that is a list or a dict and the names before are hashable with no
    two equal; the duplicate-name [ValueError], when it reaches a name that
    an earlier value carries, the names before being so again. A name that is
    a list or a dict always makes the check raise, in one of the two ways:
    the names D, D, [[]] in this order give the [ValueError]. *)
Theorem JSONField_check_is_top_level_only :
  forall (json_dumps : pyval -> outcome string) (entries : list (string * pyval)),
    (JSONField.hashable_names (map snd entries) ->
       (raises (JSONField.scan (map snd entries) []) <->
          JSONField.duplicate_names (map snd entries)) /\
       (JSONField.duplicate_names (map snd entries) ->
          exists k, JSONField.db_value json_dumps (PDict entries)
                    = Raise (ValueError ("Duplicate name: " ++ PyVal.str k))) /\
       (~ JSONField.duplicate_names (map snd entries) ->
          JSONField.db_value json_dumps (PDict entries) = json_dumps (PDict entries))) /\
    (forall e : exc,
       JSONField.scan (map snd entries) [] = Raise e <->
       (exists name, JSONField.first_unhashable (map snd entries) name /\
          e = TypeError ("unhashable type: '" ++ PyVal.type_name name ++ "'")) \/
       (exists k, JSONField.first_repeated (map snd entries) k /\
          e = ValueError ("Duplicate name: " ++ PyVal.str k))) /\
    (forall e : exc,
       JSONField.scan (map snd entries) [] = Raise e ->
       JSONField.db_value json_dumps (PDict entries) = Raise e) /\
    (JSONField.unhashable_name (map snd entries) ->
       (exists name, JSONField.first_unhashable (map snd entries) name) \/
       (exists k, JSONField.first_repeated (map snd entries) k)) /\
    JSONField.db_value json_dumps (PDict Sample.nested_names)
      = json_dumps (PDict Sample.nested_names) /\
    JSONField.unhashable_name (map snd Sample.repeated_then_list) /\
    JSONField.scan (map snd Sample.repeated_then_list) []
      = Raise (ValueError "Duplicate name: D").
Proof.
  intros json_dumps entries. split; [|split; [|split; [|split; [|split; [|split]]]]].
  - intros H. unfold JSONField.db_value. cbn [PyVal.values bind].
    destruct (scan_from_empty _ H) as [[S N]|[k [S D]]].
    + split; [|split].
      * split; [intros [e E]; congruence | contradiction].
      * contradiction.
      * intros _. rewrite S. reflexivity.
    + split; [|split].
      * split; [intros _; exact D | intros _; eexists; exact S].
      * intros _. exists k. rewrite S. reflexivity.
      * contradiction.
  - intros e. apply scan_Raise_iff.
  - intros e S. unfold JSONField.db_value. cbn [PyVal.values bind]. rewrite S. reflexivity.
  - apply unhashable_name_stops.
  - reflexivity.
  - exists (PDict [("name", PList [])]), (PList []), (TypeError "unhashable type: 'list'").
    split; [simpl; auto | split; reflexivity].
  - reflexivity.
Qed.

Lemma JSONField_check_is_top_level_only_witness :
  (raises (JSONField.scan (map snd Sample.nested_names) []) <->
     JSONField.duplicate_names (map snd Sample.nested_names)) /\
  JSONField.db_value (fun _ => Done "{}") (PDict Sample.nested_names) = Done "{}".
Proof.
  destruct (JSONField_check_is_top_level_only (fun _ => Done "{}") Sample.nested_names)
    as [R [_ [_ [_ [B _]]]]].
  destruct R as [A _].
  - intros v2 name I E. simpl in I.
    destruct I as [<-|[<-|[<-|[<-|[]]]]]; simpl in E; try discriminate E.
    injection E as <-. eexists. reflexivity.
  - split; [exact A | exact B].
Defined.

(** C9 fails for a name that is a list: the collection has a single
    top-level value, so no two of them share a name, yet the check raises,
    because the set cannot hash the name. *)
Lemma JSONField_check_raises_on_list_name :
  List.length Sample.list_name = 1%nat /\
  ~ JSONField.duplicate_names (map snd Sample.list_name) /\
  JSONField.scan (map snd Sample.list_name) [] = Raise (TypeError "unhashable type: 'list'") /\
  raises (JSONField.scan (map snd Sample.list_name) []).
Proof.
  split; [reflexivity|]. split; [|split; [reflexivity | eexists; reflexivity]].
  intros D. inversion D as [v rest v' a b _ I|v rest D']; subst.
  - destruct I.
  - inversion D'.
Qed.

(** ** The JSON printer and parser are inverse *)

Module JsonFacts.

Import Json.

Section PyvalInduction.

Variable P : pyval -> Prop.
Hypothesis HNone : P PNone.
Hypothesis HBool : forall b, P (PBool b).
Hypothesis HInt : forall n, P (PInt n).
Hypothesis HStr : forall s, P (PStr s).
Hypothesis HList : forall items, Forall P items -> P (PList items).
Hypothesis HDict : forall entries, Forall (fun kv => P (snd kv)) entries -> P (PDict entries).

Fixpoint pyval_nested_ind (v : pyval) : P v :=
  match v with
  | PNone => HNone
  | PBool b => HBool b
  | PInt n => HInt n
  | PStr s => HStr s
  | PList items =>
      HList items
        ((fix go (l : list pyval) : Forall P l :=
            match l with
            | [] => Forall_nil P
            | x :: r => Forall_cons x (pyval_nested_ind x) (go r)
            end) items)
  | PDict entries =>
      HDict entries
        ((fix go (l : list (string * pyval)) : Forall (fun kv => P (snd kv)) l :=
            match l with
            | [] => Forall_nil _
            | kv :: r => Forall_cons kv (pyval_nested_ind (snd kv)) (go r)
            end) entries)
  end.

End PyvalInduction.

Lemma append_assoc (a b c : string) : (a ++ b) ++ c = a ++ (b ++ c).
Proof. induction a as [|x a IH]; simpl; [reflexivity | now rewrite IH]. Qed.

Lemma append_nil_r (a : string) : a ++ "" = a.
Proof. induction a as [|x a IH]; simpl; [reflexivity | now rewrite IH]. Qed.

Lemma length_append (a b : string) :
  String.length (a ++ b) = (String.length a + String.length b)%nat.
Proof. induction a as [|x a IH]; simpl; [reflexivity | now rewrite IH]. Qed.

(** *** String literals *)

Lemma parse_chars_escape_char (a : ascii) (tail : string) :
  parse_chars (escape_char a ++ tail) =
  match parse_chars tail with
  | Some (w, r) => Some (String a w, r)
  | None => None
  end.
Proof.
  destruct a as [[] [] [] [] [] [] [] []]; reflexivity.
Qed.

Lemma parse_chars_escape (s rest : string) :
  parse_chars (escape s ++ String DQ rest) = Some (s, rest).
Proof.
  induction s as [|a s IH].
  - reflexivity.
  - cbn [escape]. rewrite append_assoc, parse_chars_escape_char, IH. reflexivity.
Qed.

(** *** Numbers *)

Lemma parse_uint_no_digit (rest : string) :
  no_digit_head rest -> parse_uint rest = (Decimal.Nil, rest).
Proof.
  destruct rest as [|a r]; simpl; [reflexivity | now intros ->].
Qed.

Lemma parse_uint_digits (u : Decimal.uint) (rest : string) :
  no_digit_head rest ->
  parse_uint (NilEmpty.string_of_uint u ++ rest) = (u, rest).
Proof.
  intros H. induction u; cbn [NilEmpty.string_of_uint append];
    [now apply parse_uint_no_digit | ..];
    cbn [parse_uint]; rewrite IHu; reflexivity.
Qed.

Lemma uint_head (u : Decimal.uint) :
  u <> Decimal.Nil ->
  exists c t, NilEmpty.string_of_uint u = String c t /\
    number_start c = true /\ Ascii.eqb c "-" = false.
Proof.
  destruct u; [contradiction | ..]; intros _; do 2 eexists;
    (split; [reflexivity | split; reflexivity]).
Qed.

Lemma parse_int_print (n : Z) (rest : string) :
  no_digit_head rest -> parse_int (print_int n ++ rest) = Some (n, rest).
Proof.
  intros H. unfold print_int.
  assert (NN : forall p, Pos.to_uint p <> Decimal.Nil)
    by apply DecimalPos.Unsigned.to_uint_nonnil.
  assert (G : forall u, u <> Decimal.Nil ->
            parse_int (NilEmpty.string_of_uint u ++ rest) = Some (Z.of_int (Decimal.Pos u), rest)
            /\ parse_int (String "-" (NilEmpty.string_of_uint u ++ rest))
               = Some (Z.of_int (Decimal.Neg u), rest)).
  { intros u Hu. split.
    - destruct (uint_head u Hu) as [c [t [E [_ M]]]].
      pose proof (parse_uint_digits u rest H) as PU. rewrite E in *.
      cbn [append] in *. unfold parse_int. rewrite M, PU.
      destruct u; [contradiction | reflexivity..].
    - unfold parse_int. rewrite Ascii.eqb_refl, (parse_uint_digits u rest H).
      destruct u; [contradiction | reflexivity..]. }
  rewrite <- (DecimalZ.of_to n) at 2.
  destruct n as [|p|p]; cbn [Z.to_int].
  - apply G. discriminate.
  - apply G, NN.
  - apply G, NN.
Qed.

Lemma print_int_head (n : Z) :
  exists c t, print_int n = String c t /\ number_start c = true.
Proof.
  unfold print_int. destruct n as [|p|p]; cbn [Z.to_int].
  - do 2 eexists. split; reflexivity.
  - destruct (uint_head (Pos.to_uint p) (DecimalPos.Unsigned.to_uint_nonnil p))
      as [c [t [E [S _]]]]. exists c, t. split; assumption.
  - do 2 eexists. split; reflexivity.
Qed.

(** *** The first character of a value *)

(** [parse_value] on a text whose first character starts a number. *)
Lemma parse_value_number (f : nat) (c : ascii) (t : string) :
  number_start c = true ->
  parse_value (S f) (String c t) =
  match parse_int (String c t) with
  | Some (n, r) => Some (PInt n, r)
  | None => None
  end.
Proof.
  destruct c as [[] [] [] [] [] [] [] []]; intros H; try discriminate H; reflexivity.
Qed.

Lemma parse_value_space (f : nat) (s : string) :
  parse_value f (String " " s) = parse_value f s.
Proof. destruct f; reflexivity. Qed.

Lemma parse_elements_space (f : nat) (s : string) :
  parse_elements f (String " " s) = parse_elements f s.
Proof. destruct f as [|f]; [reflexivity|]. cbn [parse_elements]. now rewrite parse_value_space. Qed.

Lemma print_head (v : pyval) :
  exists c t, print v = String c t /\ value_start c = true.
Proof.
  destruct v as [|[]|n|s|items|entries]; try (do 2 eexists; split; reflexivity).
  destruct (print_int_head n) as [c [t [E S]]]. exists c, t. split; [exact E|].
  unfold value_start. now rewrite S.
Qed.

Lemma value_start_not_ws (c : ascii) : value_start c = true -> is_ws c = false.
Proof.
  destruct c as [[] [] [] [] [] [] [] []]; intros H; try discriminate H; reflexivity.
Qed.

Lemma skip_ws_value_start (c : ascii) (t : string) :
  value_start c = true -> skip_ws (String c t) = String c t.
Proof. intros H. cbn [skip_ws]. now rewrite (value_start_not_ws c H). Qed.

Lemma closes_value_start (a c : ascii) (t : string) :
  value_start c = true -> Ascii.eqb c a = false -> closes a (String c t) = None.
Proof.
  intros H E. unfold closes. rewrite (skip_ws_value_start c t H), E. reflexivity.
Qed.

Lemma closes_here (a : ascii) (t : string) :
  is_ws a = false -> closes a (String a t) = Some t.
Proof.
  intros H. unfold closes. cbn [skip_ws]. rewrite H, Ascii.eqb_refl. reflexivity.
Qed.

Lemma closes_other (a c : ascii) (t : string) :
  is_ws c = false -> Ascii.eqb c a = false -> closes a (String c t) = None.
Proof.
  intros H E. unfold closes. cbn [skip_ws]. rewrite H, E. reflexivity.
Qed.

(** *** Values *)

Lemma parse_elements_join (items : list pyval) :
  Forall parses_back items ->
  forall (x : pyval) (f : nat) (rest : string),
    parses_back x ->
    (sum_weights (x :: items) <= f)%nat ->
    parse_elements f (join ", " (map print (x :: items)) ++ String "]" rest)
      = Some (x :: items, rest).
Proof.
  induction 1 as [|y l Hy Hl IH]; intros x f rest Hx Hf;
    unfold sum_weights in Hf; simpl in Hf;
    (destruct f as [|f]; [lia|]).
  - cbn [map join parse_elements].
    rewrite Hx; [|lia | reflexivity].
    rewrite closes_other by reflexivity. rewrite closes_here by reflexivity. reflexivity.
  - change (map print (x :: y :: l)) with (print x :: map print (y :: l)).
    change (join ", " (print x :: map print (y :: l)))
      with (print x ++ ", " ++ join ", " (map print (y :: l))).
    rewrite !append_assoc. cbn [parse_elements].
    rewrite Hx; [|lia | reflexivity].
    cbn [append]. rewrite closes_here by reflexivity.
    rewrite parse_elements_space.
    rewrite (IH y f rest Hy); [reflexivity|].
    unfold sum_weights. simpl. lia.
Qed.

Lemma parse_members_space (f : nat) (s : string) :
  parse_members f (String " " s) = parse_members f s.
Proof. destruct f; reflexivity. Qed.

Lemma parse_members_join (entries : list (string * pyval)) :
  Forall (fun kv => parses_back (snd kv)) entries ->
  forall (x : string * pyval) (f : nat) (rest : string),
    parses_back (snd x) ->
    (sum_entry_weights (x :: entries) <= f)%nat ->
    parse_members f (join ", " (map print_entry (x :: entries)) ++ String "}" rest)
      = Some (x :: entries, rest).
Proof.
  induction 1 as [|y l Hy Hl IH]; intros [k v] f rest Hx Hf;
    unfold sum_entry_weights in Hf; simpl in Hf, Hx;
    (destruct f as [|f]; [lia|]).
  - cbn [map join]. unfold print_entry, quote. cbn [fst snd].
    rewrite !append_assoc. cbn [append]. rewrite !append_assoc. cbn [append].
    cbn [parse_members]. rewrite closes_here by reflexivity.
    rewrite parse_chars_escape. rewrite closes_here by reflexivity.
    rewrite parse_value_space.
    rewrite Hx; [|lia | reflexivity].
    rewrite closes_other by reflexivity. rewrite closes_here by reflexivity. reflexivity.
  - change (map print_entry ((k, v) :: y :: l))
      with (print_entry (k, v) :: map print_entry (y :: l)).
    change (join ", " (print_entry (k, v) :: map print_entry (y :: l)))
      with (print_entry (k, v) ++ ", " ++ join ", " (map print_entry (y :: l))).
    unfold print_entry at 1. unfold quote. cbn [fst snd].
    rewrite !append_assoc. cbn [append]. rewrite !append_assoc. cbn [append].
    cbn [parse_members]. rewrite closes_here by reflexivity.
    rewrite parse_chars_escape. rewrite closes_here by reflexivity.
    rewrite parse_value_space.
    rewrite Hx; [|lia | reflexivity].
    rewrite closes_here by reflexivity.
    rewrite parse_members_space.
    rewrite (IH y f rest Hy); [reflexivity|].
    unfold sum_entry_weights. simpl. lia.
Qed.

Lemma parse_value_quote (f : nat) (t : string) :
  parse_value (S f) (String DQ t) =
  match parse_chars t with
  | Some (w, r) => Some (PStr w, r)
  | None => None
  end.
Proof. reflexivity. Qed.

Lemma parse_value_bracket (f : nat) (t : string) :
  parse_value (S f) (String "[" t) =
  match closes "]" t with
  | Some r => Some (PList [], r)
  | None =>
      match parse_elements f t with
      | Some (l, r) => Some (PList l, r)
      | None => None
      end
  end.
Proof. reflexivity. Qed.

Lemma parse_value_brace (f : nat) (t : string) :
  parse_value (S f) (String "{" t) =
  match closes "}" t with
  | Some r => Some (PDict [], r)
  | None =>
      match parse_members f t with
      | Some (l, r) => Some (PDict l, r)
      | None => None
      end
  end.
Proof. reflexivity. Qed.

Lemma value_start_not_bracket (c : ascii) :
  value_start c = true -> Ascii.eqb c "]" = false.
Proof.
  destruct c as [[] [] [] [] [] [] [] []]; intros H; try discriminate H; reflexivity.
Qed.

(** Parsing the text of a value, whatever follows it, gives the value back
    and leaves what follows. *)
Theorem parse_value_print (v : pyval) : parses_back v.
Proof.
  induction v as [|b|n|s|items IH|entries IH] using pyval_nested_ind;
    intros f rest Hf Hr; (destruct f as [|f]; [simpl in Hf; lia|]).
  - reflexivity.
  - destruct b; reflexivity.
  - change (print (PInt n)) with (print_int n).
    destruct (print_int_head n) as [c [t [E S]]].
    assert (D : parse_value (Datatypes.S f) (print_int n ++ rest) =
                match parse_int (print_int n ++ rest) with
                | Some (m, r) => Some (PInt m, r)
                | None => None
                end).
    { rewrite E. cbn [append]. now apply parse_value_number. }
    rewrite D, parse_int_print by exact Hr. reflexivity.
  - change (print (PStr s)) with (quote s). unfold quote.
    cbn [append]. rewrite parse_value_quote, append_assoc. cbn [append].
    rewrite parse_chars_escape. reflexivity.
  - change (print (PList items)) with ("[" ++ join ", " (map print items) ++ "]").
    rewrite !append_assoc. cbn [append]. rewrite parse_value_bracket.
    destruct items as [|x l].
    + cbn [map join append]. rewrite closes_here by reflexivity. reflexivity.
    + inversion IH as [|? ? Hx Hl]; subst.
      assert (C : closes "]" (join ", " (map print (x :: l)) ++ String "]" rest) = None).
      { destruct (print_head x) as [c [t [E S]]].
        destruct l as [|y l']; cbn [map join]; rewrite ?append_assoc, E; cbn [append];
          apply closes_value_start; auto using value_start_not_bracket. }
      rewrite C.
      rewrite (parse_elements_join l Hl x f rest Hx); [reflexivity|].
      simpl in Hf. unfold sum_weights. simpl. lia.
  - change (print (PDict entries))
      with ("{" ++ join ", " (map print_entry entries) ++ "}").
    rewrite !append_assoc. cbn [append]. rewrite parse_value_brace.
    destruct entries as [|x l].
    + cbn [map join append]. rewrite closes_here by reflexivity. reflexivity.
    + inversion IH as [|? ? Hx Hl]; subst.
      assert (C : closes "}" (join ", " (map print_entry (x :: l)) ++ String "}" rest) = None).
      { destruct l as [|y l']; cbn [map join]; unfold print_entry at 1, quote;
          rewrite ?append_assoc; cbn [append]; now apply closes_other. }
      rewrite C.
      rewrite (parse_members_join l Hl x f rest Hx); [reflexivity|].
      simpl in Hf. unfold sum_entry_weights. simpl. lia.
Qed.

(** *** The whole text *)

Lemma sum_le_join_length {A : Type} (g : A -> string) (w : A -> nat) (l : list A) :
  Forall (fun x => (w x <= String.length (g x))%nat) l ->
  (list_sum (map (fun x => S (w x)) l) <= String.length (join ", " (map g l)) + 1)%nat.
Proof.
  induction 1 as [|x l Hx Hl IH]; [simpl; lia|].
  destruct l as [|y l'].
  - simpl. lia.
  - change (join ", " (map g (x :: y :: l')))
      with (g x ++ ", " ++ join ", " (map g (y :: l'))).
    rewrite !length_append.
    change (list_sum (map (fun x0 => S (w x0)) (x :: y :: l')))
      with (S (w x) + list_sum (map (fun x0 => S (w x0)) (y :: l')))%nat.
    change (String.length ", ") with 2%nat. lia.
Qed.

Lemma weight_le_length (v : pyval) : (weight v <= String.length (print v))%nat.
Proof.
  induction v as [|b|n|s|items IH|entries IH] using pyval_nested_ind.
  - simpl. lia.
  - destruct b; simpl; lia.
  - destruct (print_int_head n) as [c [t [E _]]].
    change (print (PInt n)) with (print_int n). rewrite E. simpl. lia.
  - simpl. lia.
  - change (print (PList items)) with ("[" ++ join ", " (map print items) ++ "]").
    rewrite !length_append.
    pose proof (sum_le_join_length print weight items IH) as B.
    change (weight (PList items)) with (S (list_sum (map (fun x => S (weight x)) items))).
    simpl String.length. lia.
  - change (print (PDict entries)) with ("{" ++ join ", " (map print_entry entries) ++ "}").
    rewrite !length_append.
    assert (IH' : Forall (fun kv => (weight (snd kv) <= String.length (print_entry kv))%nat)
                    entries).
    { eapply Forall_impl; [|exact IH]. intros [k x] H. unfold print_entry.
      rewrite !length_append. simpl in *. lia. }
    pose proof (sum_le_join_length print_entry (fun kv => weight (snd kv)) entries IH') as B.
    change (weight (PDict entries))
      with (S (list_sum (map (fun kv => S (weight (snd kv))) entries))).
    simpl String.length. lia.
Qed.

Theorem parse_print (v : pyval) : parse (print v) = Some v.
Proof.
  unfold parse.
  pose proof (parse_value_print v (S (String.length (print v))) EmptyString) as H.
  rewrite append_nil_r in H. rewrite H; [reflexivity | | exact I].
  pose proof (weight_le_length v). lia.
Qed.

(** [loads] undoes [dumps]. *)
Lemma loads_dumps (v : pyval) :
  exists text, dumps v = Done text /\ loads text = Done v.
Proof.
  exists (print v). split; [reflexivity|]. unfold loads. now rewrite parse_print.
Qed.

End JsonFacts.

(** ** JSONField: encoding, decoding and the aborted save *)

Lemma col_encode_Done (json_dumps : pyval -> outcome string) (r : Col.row pyval)
    (stored : Col.row string) :
  Save.col_encode json_dumps r = Done stored ->
  forall v, In v (Col.json_columns r) -> exists text, JSONField.db_value json_dumps v = Done text.
Proof.
  unfold Save.col_encode, Col.json_columns. intros E v I.
  destruct (JSONField.db_value json_dumps (Col.conf r)) as [t1| |] eqn:E1; try discriminate E.
  destruct (JSONField.db_value json_dumps (Col.models r)) as [t2| |] eqn:E2; try discriminate E.
  destruct (JSONField.db_value json_dumps (Col.decks r)) as [t3| |] eqn:E3; try discriminate E.
  destruct (JSONField.db_value json_dumps (Col.dconf r)) as [t4| |] eqn:E4; try discriminate E.
  destruct (JSONField.db_value json_dumps (Col.tags r)) as [t5| |] eqn:E5; try discriminate E.
  simpl in I. destruct I as [<-|[<-|[<-|[<-|[<-|[]]]]]]; eauto.
Qed.

(** A column that [db_value] refuses stops the save before anything is
    written. *)
Lemma col_save_aborted (json_dumps : pyval -> outcome string) (now : Q)
    (tbl : Db.table (Col.row string)) (instance : Col.row pyval) (created : bool)
    (v : pyval) (e : exc) :
  In v (Col.json_columns instance) ->
  JSONField.db_value json_dumps v = Raise e ->
  exists o, Save.col json_dumps now tbl instance created = (o, tbl) /\
    forall stored, o <> Done stored.
Proof.
  intros I E. unfold Save.col, Save.commit.
  destruct (Save.col_encode json_dumps (Col.col_pre_save now instance created))
    as [stored| |] eqn:C.
  - destruct (col_encode_Done _ _ _ C v I) as [text T]. congruence.
  - eexists. split; [reflexivity | discriminate].
  - eexists. split; [reflexivity | discriminate].
Qed.

Section JSONFieldFacts.

(** [json.dumps] and [json.loads], and what is assumed of them: a value as
    Python builds it is serialized to a text that parses back to the value. *)
Variable json_dumps : pyval -> outcome string.
Variable json_loads : string -> outcome pyval.
Hypothesis json_inverse :
  forall v, PyVal.well_formed v = true ->
    exists text, json_dumps v = Done text /\ json_loads text = Done v.

(** C4, as the code has it. For a collection whose top-level names are
    hashable: when two top-level values that are dicts carry equal names,
    [db_value] raises the duplicate-name [ValueError] whatever the serializer
    would do, and a save of a collection row that holds the collection in a
    JSON column stops there, the table left as it was; when no two do,
    [db_value] returns the text of [json.dumps], and [python_value] of that
    text is the collection again. A collection with a name that is a list or
    a dict is refused as well, whatever the serializer and with the table
    left as it was: with the [TypeError] of the hash when the check reaches
    that name first, the names before it hashable and no two equal; with the
    duplicate-name [ValueError] of the first name met twice otherwise, as for
    the names D, D, [[]] in this order. *)
Theorem JSONField_duplicate_refused_distinct_roundtrip :
  forall entries : list (string * pyval),
    (JSONField.hashable_names (map snd entries) ->
       (JSONField.duplicate_names (map snd entries) ->
          exists k,
            (forall dumps : pyval -> outcome string,
               JSONField.db_value dumps (PDict entries)
                 = Raise (ValueError ("Duplicate name: " ++ PyVal.str k))) /\
            (forall (dumps : pyval -> outcome string) (now : Q)
               (tbl : Db.table (Col.row string)) (instance : Col.row pyval) (created : bool),
               In (PDict entries) (Col.json_columns instance) ->
               exists o, Save.col dumps now tbl instance created = (o, tbl) /\
                 forall stored, o <> Done stored)) /\
       (~ JSONField.duplicate_names (map snd entries) ->
          PyVal.well_formed (PDict entries) = true ->
          exists text,
            JSONField.db_value json_dumps (PDict entries) = Done text /\
            JSONField.python_value json_loads text = Done (PDict entries))) /\
    (forall name : pyval,
       JSONField.first_unhashable (map snd entries) name ->
       (forall dumps : pyval -> outcome string,
          JSONField.db_value dumps (PDict entries)
            = Raise (TypeError ("unhashable type: '" ++ PyVal.type_name name ++ "'"))) /\
       (forall (dumps : pyval -> outcome string) (now : Q)
          (tbl : Db.table (Col.row string)) (instance : Col.row pyval) (created : bool),
          In (PDict entries) (Col.json_columns instance) ->
          exists o, Save.col dumps now tbl instance created = (o, tbl) /\
            forall stored, o <> Done stored)) /\
    (forall k : pykey,
       JSONField.first_repeated (map snd entries) k ->
       (forall dumps : pyval -> outcome string,
          JSONField.db_value dumps (PDict entries)
            = Raise (ValueError ("Duplicate name: " ++ PyVal.str k))) /\
       (forall (dumps : pyval -> outcome string) (now : Q)
          (tbl : Db.table (Col.row string)) (instance : Col.row pyval) (created : bool),
          In (PDict entries) (Col.json_columns instance) ->
          exists o, Save.col dumps now tbl instance created = (o, tbl) /\
            forall stored, o <> Done stored)) /\
    (JSONField.unhashable_name (map snd entries) ->
       (exists name, JSONField.first_unhashable (map snd entries) name) \/
       (exists k, JSONField.first_repeated (map snd entries) k)) /\
    JSONField.unhashable_name (map snd Sample.repeated_then_list) /\
    (forall dumps : pyval -> outcome string,
       JSONField.db_value dumps (PDict Sample.repeated_then_list)
         = Raise (ValueError "Duplicate name: D")).
Proof.
  intros entries.
  assert (Stop : forall e : exc,
            JSONField.scan (map snd entries) [] = Raise e ->
            (forall dumps : pyval -> outcome string,
               JSONField.db_value dumps (PDict entries) = Raise e) /\
            (forall (dumps : pyval -> outcome string) (now : Q)
               (tbl : Db.table (Col.row string)) (instance : Col.row pyval) (created : bool),
               In (PDict entries) (Col.json_columns instance) ->
               exists o, Save.col dumps now tbl instance created = (o, tbl) /\
                 forall stored, o <> Done stored)).
  { intros e S.
    assert (G : forall dumps : pyval -> outcome string,
              JSONField.db_value dumps (PDict entries) = Raise e).
    { intros dumps. unfold JSONField.db_value. cbn [PyVal.values bind].
      rewrite S. reflexivity. }
    split; [exact G|].
    intros dumps now tbl instance created I.
    exact (col_save_aborted dumps now tbl instance created _ _ I (G dumps)). }
  split; [|split; [|split; [|split; [|split]]]].
  - intros H. split.
    + intros D.
      destruct (scan_from_empty _ H) as [[_ N]|[k [S _]]]; [contradiction|].
      exists k. exact (Stop _ S).
    + intros N W.
      destruct (scan_from_empty _ H) as [[S _]|[k [_ D]]]; [|contradiction].
      destruct (json_inverse _ W) as [text [Ed El]].
      exists text. split; [|exact El].
      unfold JSONField.db_value. cbn [PyVal.values bind]. rewrite S. exact Ed.
  - intros name F. apply Stop. apply scan_Raise_iff. left. eauto.
  - intros k F. apply Stop. apply scan_Raise_iff. right. eauto.
  - apply unhashable_name_stops.
  - exists (PDict [("name", PList [])]), (PList []), (TypeError "unhashable type: 'list'").
    split; [simpl; auto | split; reflexivity].
  - reflexivity.
Qed.

End JSONFieldFacts.

(** A scan that ends quietly has met no name twice. *)
Lemma scan_quiet (vs : list pyval) :
  JSONField.hashable_names vs -> JSONField.scan vs [] = Done tt ->
  ~ JSONField.duplicate_names vs.
Proof.
  intros H S. destruct (scan_from_empty vs H) as [[_ N]|[k [R _]]]; [exact N | congruence].
Qed.

Lemma two_decks_hashable : JSONField.hashable_names (map snd Sample.two_decks).
Proof.
  intros v2 name I E. simpl in I.
  destruct I as [<-|[<-|[]]]; simpl in E; injection E as <-; eexists; reflexivity.
Qed.

Lemma JSONField_duplicate_refused_distinct_roundtrip_witness :
  exists text,
    JSONField.db_value Json.dumps (PDict Sample.two_decks) = Done text /\
    JSONField.python_value Json.loads text = Done (PDict Sample.two_decks).
Proof.
  destruct (JSONField_duplicate_refused_distinct_roundtrip Json.dumps Json.loads
              (fun v _ => JsonFacts.loads_dumps v) Sample.two_decks) as [R _].
  destruct (R two_decks_hashable) as [_ B]. apply B.
  - apply scan_quiet; [exact two_decks_hashable | reflexivity].
  - reflexivity.
Defined.

(** C4 fails for names that are lists. A collection with a single named
    value is refused, and one whose two names are the same list is refused
    with the [TypeError] of the set, not with the duplicate-name error. *)
Lemma JSONField_list_names_raise_TypeError :
  ~ JSONField.duplicate_names (map snd Sample.list_name) /\
  (forall dumps : pyval -> outcome string,
     JSONField.db_value dumps (PDict Sample.list_name)
       = Raise (TypeError "unhashable type: 'list'")) /\
  (forall dumps : pyval -> outcome string,
     JSONField.db_value dumps (PDict Sample.list_name_twice)
       = Raise (TypeError "unhashable type: 'list'")) /\
  JSONField.name_of (PDict [("name", PList [PStr "x"])]) = Some (PList [PStr "x"]).
Proof.
  split; [|split; [|split]]; try reflexivity.
  intros D. inversion D as [v rest v' a b _ I|v rest D']; subst.
  - destruct I.
  - inversion D'.
Qed.

(** * Further properties of the codecs and hooks *)

(** ** Splitting, joining and stripping *)

Section SplitFacts.

Variable c : ascii.

Lemma join_cons_char (sep : string) (a : ascii) (w : string) (ws : list string) :
  join sep (String a w :: ws) = String a (join sep (w :: ws)).
Proof. destruct ws; reflexivity. Qed.

Lemma join_cons_more (sep x : string) (l : list string) :
  l <> [] -> join sep (x :: l) = x ++ sep ++ join sep l.
Proof. destruct l; [contradiction | reflexivity]. Qed.

(** Joining what [split] returned gives the text back. *)
Lemma join_split (s : string) : join (String c EmptyString) (split c s) = s.
Proof.
  induction s as [|a s IH]; [reflexivity|]. cbn [split].
  pose proof (split_not_nil c s) as NE.
  destruct (Ascii.eqb_spec a c) as [->|N].
  - rewrite join_cons_more by assumption. rewrite IH. reflexivity.
  - destruct (split c s) as [|w ws]; [contradiction|].
    rewrite join_cons_char. now rewrite IH.
Qed.

(** No piece that [split] returns holds the separator. *)
Lemma split_pieces_clean (s : string) :
  Forall (fun t => contains c t = false) (split c s).
Proof.
  induction s as [|a s IH]; simpl.
  - repeat constructor.
  - destruct (Ascii.eqb a c) eqn:E.
    + constructor; [reflexivity | assumption].
    + destruct (split c s) as [|w ws]; [repeat constructor; simpl; now rewrite E|].
      inversion IH as [|? ? Hw Hws]; subst.
      constructor; [simpl; now rewrite E, Hw | assumption].
Qed.

(** [split] returns one piece more than the text has separators. *)
Lemma split_length (s : string) : List.length (split c s) = S (count c s).
Proof.
  induction s as [|a s IH]; simpl; [reflexivity|].
  destruct (Ascii.eqb a c).
  - simpl. now rewrite IH.
  - destruct (split c s) as [|w ws]; simpl in *; [discriminate | assumption].
Qed.

End SplitFacts.

Lemma lstrip_clean (s : string) : starts_with_space (lstrip s) = false.
Proof.
  induction s as [|a s IH]; simpl; [reflexivity|].
  destruct (isspace a) eqn:E; [assumption | simpl; assumption].
Qed.

Lemma rstrip_nonspace (a : ascii) (s : string) :
  isspace a = false -> rstrip (String a s) = String a (rstrip s).
Proof. intros E. simpl. rewrite E. destruct (rstrip s); reflexivity. Qed.

Lemma rstrip_clean (s : string) : ends_with_space (rstrip s) = false.
Proof.
  unfold ends_with_space. induction s as [|a s IH]; [reflexivity|]. simpl.
  destruct (rstrip s) as [|b r] eqn:R.
  - destruct (isspace a) eqn:E; simpl; [reflexivity | assumption].
  - rewrite last_char_cons by discriminate. exact IH.
Qed.

Lemma rstrip_keeps_start (s : string) :
  starts_with_space s = false -> starts_with_space (rstrip s) = false.
Proof.
  destruct s as [|a s]; [reflexivity|]. simpl. intros E. rewrite E.
  destruct (rstrip s); assumption.
Qed.

(** What [strip] returns neither begins nor ends with white space, and
    [strip] leaves it as it is. *)
Lemma strip_clean (s : string) :
  starts_with_space (strip s) = false /\ ends_with_space (strip s) = false.
Proof.
  unfold strip. split; [apply rstrip_keeps_start, lstrip_clean | apply rstrip_clean].
Qed.

Lemma strip_fixed (s : string) :
  starts_with_space s = false -> ends_with_space s = false -> strip s = s.
Proof. intros Hs He. unfold strip. rewrite (lstrip_id s Hs). now apply rstrip_id. Qed.

Lemma strip_strip (s : string) : strip (strip s) = strip s.
Proof. destruct (strip_clean s). now apply strip_fixed. Qed.

Lemma rstrip_app_space (s : string) (w : ascii) :
  isspace w = true -> rstrip (s ++ String w EmptyString) = rstrip s.
Proof.
  intros W. induction s as [|a s IH]; simpl; [now rewrite W|]. now rewrite IH.
Qed.

(** ** The text codecs, from the stored text *)

(** The joined text begins as its first piece and ends as its last. *)
Lemma join_starts (sep : string) (l : list string) :
  hd EmptyString l <> EmptyString ->
  starts_with_space (join sep l) = starts_with_space (hd EmptyString l).
Proof.
  destruct l as [|t rest]; [reflexivity|]. simpl hd. intros N.
  destruct t as [|a t]; [contradiction|]. now rewrite join_cons_char.
Qed.

Lemma join_not_empty (sep : string) (l : list string) :
  hd EmptyString l <> EmptyString -> join sep l <> EmptyString.
Proof.
  destruct l as [|t rest]; simpl hd; intros N; [contradiction|].
  destruct t as [|a t]; [contradiction|]. rewrite join_cons_char. discriminate.
Qed.

Lemma join_ends (sep : string) (l : list string) :
  last l EmptyString <> EmptyString ->
  ends_with_space (join sep l) = ends_with_space (last l EmptyString).
Proof. intros N. unfold ends_with_space. now rewrite join_last_char. Qed.

Lemma strip_join_edges (sep : string) (l : list string) :
  hd EmptyString l <> EmptyString -> last l EmptyString <> EmptyString ->
  starts_with_space (hd EmptyString l) = false ->
  ends_with_space (last l EmptyString) = false ->
  starts_with_space (join sep l) = false /\ ends_with_space (join sep l) = false /\
  strip (join sep l) = join sep l.
Proof.
  intros Nh Nl Hs He.
  assert (A : starts_with_space (join sep l) = false) by now rewrite join_starts.
  assert (B : ends_with_space (join sep l) = false) by now rewrite join_ends.
  split; [exact A|]. split; [exact B|]. now apply strip_fixed.
Qed.

(** X1. Whatever the stored text, [TagField.python_value] returns a list
    that is not empty, none of its tags holds a space, and the tags are one
    more than the spaces of the stripped text. *)
Theorem TagField_python_value_shape :
  forall value : string,
    (exists (t : string) (rest : list string), TagField.python_value value = t :: rest) /\
    Forall (fun t => contains SP t = false) (TagField.python_value value) /\
    List.length (TagField.python_value value) = S (count SP (strip value)).
Proof.
  intros value. unfold TagField.python_value. split; [|split].
  - pose proof (split_not_nil SP (strip value)) as N.
    destruct (split SP (strip value)) as [|t rest]; [contradiction | eauto].
  - apply split_pieces_clean.
  - apply split_length.
Qed.

(** X2. Encoding what was decoded from a stored text gives the text
    stripped of its outer white space, and decoding that again gives the same
    tags: a stored tag text is stable from its first reading on. *)
Theorem TagField_db_value_after_python_value :
  forall value : string,
    TagField.db_value (TagField.python_value value) = strip value /\
    TagField.python_value (TagField.db_value (TagField.python_value value))
      = TagField.python_value value.
Proof.
  intros value. unfold TagField.db_value, TagField.python_value.
  rewrite (join_split SP). split; [reflexivity|]. now rewrite strip_strip.
Qed.

(** X3. The layout the schema describes, the tags between two spaces, is
    decoded to the tags: when no tag holds a space, the first tag is not
    empty and does not begin with white space, and the last is not empty and
    does not end with white space, the encoded text with a space added on
    each side decodes to the tags. *)
Theorem TagField_python_value_padded :
  forall T : list string,
    hd EmptyString T <> EmptyString ->
    last T EmptyString <> EmptyString ->
    starts_with_space (hd EmptyString T) = false ->
    ends_with_space (last T EmptyString) = false ->
    Forall (fun t => contains SP t = false) T ->
    TagField.python_value (String SP (TagField.db_value T ++ String SP EmptyString)) = T.
Proof.
  intros T Nh Nl Hs He F.
  destruct (strip_join_edges (String SP EmptyString) T Nh Nl Hs He) as [Cs [Ce St]].
  unfold TagField.python_value, TagField.db_value, strip in *.
  change (lstrip (String SP (join (String SP EmptyString) T ++ String SP EmptyString)))
    with (lstrip (join (String SP EmptyString) T ++ String SP EmptyString)).
  assert (L : lstrip (join (String SP EmptyString) T ++ String SP EmptyString)
              = join (String SP EmptyString) T ++ String SP EmptyString).
  { apply lstrip_id. pose proof (join_not_empty (String SP EmptyString) T Nh) as NE.
    destruct (join (String SP EmptyString) T); [contradiction | exact Cs]. }
  rewrite L, rstrip_app_space by reflexivity.
  rewrite (rstrip_id _ Ce). apply split_join; [|exact F].
  intros ->. now apply Nh.
Qed.

Lemma TagField_python_value_padded_witness :
  TagField.python_value
    (String SP (TagField.db_value ["leech"; "verbs::irregular"] ++ String SP EmptyString))
    = ["leech"; "verbs::irregular"].
Proof.
  apply (TagField_python_value_padded ["leech"; "verbs::irregular"]).
  - discriminate.
  - discriminate.
  - reflexivity.
  - reflexivity.
  - repeat constructor.
Defined.

(** X4. The converse of C6. For tags whose first is not empty and does not
    begin with white space and whose last is not empty and does not end with
    white space, decoding the encoded text gives the tags back exactly when
    no tag holds a space: a tag with a space inside comes back as several
    tags. *)
Theorem TagField_roundtrip_iff_no_space :
  forall T : list string,
    hd EmptyString T <> EmptyString ->
    last T EmptyString <> EmptyString ->
    starts_with_space (hd EmptyString T) = false ->
    ends_with_space (last T EmptyString) = false ->
    (TagField.python_value (TagField.db_value T) = T <->
     Forall (fun t => contains SP t = false) T).
Proof.
  intros T Nh Nl Hs He.
  destruct (strip_join_edges (String SP EmptyString) T Nh Nl Hs He) as [_ [_ St]].
  unfold TagField.python_value, TagField.db_value. rewrite St. split.
  - intros E. rewrite <- E. apply split_pieces_clean.
  - intros F. apply split_join; [|exact F]. intros ->. now apply Nh.
Qed.

Lemma TagField_roundtrip_iff_no_space_witness :
  TagField.python_value (TagField.db_value ["to do"; "ch3"]) = ["to do"; "ch3"] <->
  Forall (fun t => contains SP t = false) ["to do"; "ch3"].
Proof.
  apply (TagField_roundtrip_iff_no_space ["to do"; "ch3"]).
  - discriminate.
  - discriminate.
  - reflexivity.
  - reflexivity.
Defined.

(** ** ListField, from the stored text and back *)

(** X5. Whatever the stored text, [ListField.python_value] returns a list
    that [db_value] encodes to the same text again; the list is not empty,
    none of its fields holds U+001F, and the fields are one more than the
    separators of the text. *)
Theorem ListField_db_value_after_python_value :
  forall text : string,
    exists (f0 : string) (rest : list string),
      ListField.python_value (Some text) = Done (f0 :: rest) /\
      ListField.db_value (f0 :: rest) = Some text /\
      Forall (fun f => contains US f = false) (f0 :: rest) /\
      List.length (f0 :: rest) = S (count US text).
Proof.
  intros text. unfold ListField.python_value.
  pose proof (split_not_nil US text) as N.
  pose proof (join_split US text) as J.
  pose proof (split_pieces_clean US text) as C.
  pose proof (split_length US text) as L.
  destruct (split US text) as [|f0 rest]; [contradiction|].
  exists f0, rest. split; [reflexivity|]. split; [|split; assumption].
  unfold ListField.db_value. now rewrite J.
Qed.

(** X6. The converse of C5. For a list that is not empty, decoding the
    encoded text gives the list back exactly when no field holds U+001F: a
    field with a separator inside comes back as several fields. *)
Theorem ListField_roundtrip_iff_no_separator :
  forall (f0 : string) (rest : list string),
    ListField.python_value (ListField.db_value (f0 :: rest)) = Done (f0 :: rest) <->
    Forall (fun f => contains US f = false) (f0 :: rest).
Proof.
  intros f0 rest. unfold ListField.python_value, ListField.db_value. split.
  - intros E. injection E as E. rewrite <- E. apply split_pieces_clean.
  - intros F. f_equal. apply split_join; [discriminate | exact F].
Qed.

(** ** JSONField: every outcome of the check *)

(** A scan that raised the duplicate-name error had met the name before:
    in the set it started from, or at an earlier value. *)
Lemma scan_ValueError (vs : list pyval) :
  forall (seen : list pykey) (msg : string),
    JSONField.scan vs seen = Raise (ValueError msg) ->
    exists l1 v l2 k,
      vs = (l1 ++ v :: l2)%list /\ msg = "Duplicate name: " ++ PyVal.str k /\
      JSONField.name_key v = Some k /\
      (PyVal.set_mem k seen = true \/
       exists v' a, In v' l1 /\ JSONField.name_key v' = Some a /\ PyVal.key_eqb k a = true).
Proof.
  induction vs as [|v0 rest IH]; intros seen msg; [discriminate|].
  destruct (JSONField.name_of v0) as [name|] eqn:En.
  - destruct (hashed_outcomes name) as [[k0 Hk]|Hk].
    + assert (Ek : JSONField.name_key v0 = Some k0).
      { unfold JSONField.name_key. now rewrite En, Hk. }
      rewrite (scan_named _ _ _ _ _ En Hk).
      destruct (PyVal.set_mem k0 seen) eqn:M.
      * intros E. injection E as <-. exists [], v0, rest, k0. auto.
      * intros E. apply IH in E. destruct E as [l1 [v [l2 [k [-> [-> [Kv C]]]]]]].
        exists (v0 :: l1), v, l2, k. split; [reflexivity|]. split; [reflexivity|].
        split; [exact Kv|].
        destruct C as [C|[v' [a [I [Ea E]]]]].
        -- simpl in C. apply orb_true_iff in C. destruct C as [C|C]; [|now left].
           right. exists v0, k0. split; [now left | split; assumption].
        -- right. exists v', a. split; [now right | split; assumption].
    + rewrite (scan_unhashable _ _ _ _ _ En Hk). discriminate.
  - rewrite (scan_unnamed _ _ _ En). intros E. apply IH in E.
    destruct E as [l1 [v [l2 [k [-> [-> [Kv C]]]]]]].
    exists (v0 :: l1), v, l2, k. split; [reflexivity|]. split; [reflexivity|].
    split; [exact Kv|].
    destruct C as [C|[v' [a [I [Ea E]]]]]; [now left|].
    right. exists v', a. split; [now right | split; assumption].
Qed.

(** A scan that raised a [TypeError] met a name that is a list or a dict. *)
Lemma scan_TypeError (vs : list pyval) :
  forall (seen : list pykey) (msg : string),
    JSONField.scan vs seen = Raise (TypeError msg) ->
    exists v name,
      In v vs /\ JSONField.name_of v = Some name /\
      PyVal.hashed name = Raise (TypeError msg) /\
      msg = "unhashable type: '" ++ PyVal.type_name name ++ "'".
Proof.
  induction vs as [|v0 rest IH]; intros seen msg; [discriminate|].
  destruct (JSONField.name_of v0) as [name|] eqn:En.
  - destruct (hashed_outcomes name) as [[k0 Hk]|Hk].
    + rewrite (scan_named _ _ _ _ _ En Hk).
      destruct (PyVal.set_mem k0 seen); [discriminate|].
      intros E. apply IH in E. destruct E as [v [n [I R]]]. exists v, n. split; [now right | exact R].
    + rewrite (scan_unhashable _ _ _ _ _ En Hk). intros E. injection E as <-.
      exists v0, name. split; [now left|]. split; [exact En|]. split; [exact Hk | reflexivity].
  - rewrite (scan_unnamed _ _ _ En). intros E. apply IH in E.
    destruct E as [v [n [I R]]]. exists v, n. split; [now right | exact R].
Qed.

(** When the check raises, whatever the names are. *)
Lemma scan_raises_iff (vs : list pyval) :
  raises (JSONField.scan vs []) <->
  JSONField.duplicate_names vs \/ JSONField.unhashable_name vs.
Proof.
  split.
  - intros [e E].
    destruct (scan_outcomes vs []) as [D|[[msg V]|[msg T]]]; [congruence| |].
    + left. apply scan_ValueError in V.
      destruct V as [l1 [v [l2 [k [-> [_ [Kv C]]]]]]].
      destruct C as [C|[v' [a [I [Ea Eq]]]]]; [discriminate C|].
      apply duplicate_names_places. destruct (In_nth_error _ _ I) as [i Ei].
      assert (Li : (i < List.length l1)%nat) by (apply nth_error_Some; congruence).
      exists i, (List.length l1), v', v, a, k. split; [exact Li|].
      split; [rewrite nth_error_app1; assumption|].
      split; [rewrite nth_error_app2, Nat.sub_diag by lia; reflexivity|].
      split; [exact Ea|]. split; [exact Kv|]. now rewrite key_eqb_sym.
    + right. apply scan_TypeError in T. destruct T as [v [name [I [En [H _]]]]].
      exists v, name, (TypeError msg). auto.
  - intros C. destruct (scan_outcomes vs []) as [D|[[msg V]|[msg T]]].
    + exfalso. pose proof (scan_Done_hashable _ _ D) as H.
      destruct C as [Dup|[v [name [e [I [En He]]]]]].
      * exact (scan_quiet vs H D Dup).
      * destruct (H v name I En) as [k Hk]. congruence.
    + eexists. exact V.
    + eexists. exact T.
Qed.

(** X7. Every outcome of [JSONField.db_value], whatever the serializer. A
    value that is no dict is refused with an [AttributeError]. A dict is in
    one of three cases, and each fixes the outcome: its top-level names are
    hashable and no two are equal, and the outcome is that of [json.dumps] on
    the very value; the check reaches first a name that is a list or a dict,
    and [db_value] raises the [TypeError] of that name; the check reaches
    first a name that an earlier value carries, and [db_value] raises the
    duplicate-name [ValueError] of that name. So a dict two of whose names
    are equal, or one of whose names cannot be hashed, is never serialized. *)
Theorem JSONField_db_value_outcomes :
  forall (json_dumps : pyval -> outcome string) (value : pyval),
    ((forall entries, value <> PDict entries) ->
       JSONField.db_value json_dumps value
         = Raise (AttributeError
                    ("'" ++ PyVal.type_name value ++ "' object has no attribute 'values'"))) /\
    (forall entries, value = PDict entries ->
       (~ JSONField.duplicate_names (map snd entries) ->
        ~ JSONField.unhashable_name (map snd entries) ->
        JSONField.db_value json_dumps value = json_dumps value) /\
       (forall name : pyval,
          JSONField.first_unhashable (map snd entries) name ->
          JSONField.db_value json_dumps value
            = Raise (TypeError ("unhashable type: '" ++ PyVal.type_name name ++ "'"))) /\
       (forall k : pykey,
          JSONField.first_repeated (map snd entries) k ->
          JSONField.db_value json_dumps value
            = Raise (ValueError ("Duplicate name: " ++ PyVal.str k))) /\
       ((JSONField.hashable_names (map snd entries) /\
         ~ JSONField.duplicate_names (map snd entries)) \/
        (exists name, JSONField.first_unhashable (map snd entries) name) \/
        (exists k, JSONField.first_repeated (map snd entries) k)) /\
       (JSONField.duplicate_names (map snd entries) \/
        JSONField.unhashable_name (map snd entries) ->
        exists msg,
          JSONField.db_value json_dumps value = Raise (TypeError msg) \/
          JSONField.db_value json_dumps value = Raise (ValueError msg))).
Proof.
  intros json_dumps value. split.
  - intros N. destruct value; try reflexivity. elim (N entries). reflexivity.
  - intros entries ->. unfold JSONField.db_value. cbn [PyVal.values bind].
    split; [|split; [|split; [|split]]].
    + intros ND NU.
      destruct (scan_outcomes (map snd entries) []) as [D|R].
      * rewrite D. reflexivity.
      * assert (Ra : raises (JSONField.scan (map snd entries) [])).
        { destruct R as [[msg V]|[msg T]]; eexists; eassumption. }
        apply scan_raises_iff in Ra. tauto.
    + intros name F.
      assert (S : JSONField.scan (map snd entries) []
                  = Raise (TypeError ("unhashable type: '" ++ PyVal.type_name name ++ "'"))).
      { apply scan_Raise_iff. left. eauto. }
      rewrite S. reflexivity.
    + intros k F.
      assert (S : JSONField.scan (map snd entries) []
                  = Raise (ValueError ("Duplicate name: " ++ PyVal.str k))).
      { apply scan_Raise_iff. right. eauto. }
      rewrite S. reflexivity.
    + destruct (JSONField.scan (map snd entries) []) as [[]|e|] eqn:S.
      * left. now apply scan_Done_iff.
      * right. apply scan_Raise_iff in S. destruct S as [[n [F _]]|[k [F _]]]; eauto.
      * destruct (scan_outcomes (map snd entries) []) as [D|[[msg V]|[msg T]]]; congruence.
    + intros C. apply scan_raises_iff in C. destruct C as [e S].
      rewrite S. cbn [bind]. apply scan_Raise_iff in S.
      destruct S as [[n [_ ->]]|[k [_ ->]]]; eexists; [left | right]; reflexivity.
Qed.

(** The two ways the check raises do not depend on the order of the
    values. *)
Lemma duplicate_names_perm (l l' : list pyval) :
  Permutation l l' -> JSONField.duplicate_names l -> JSONField.duplicate_names l'.
Proof.
  induction 1 as [|x l l' P IH|x y l|l l' l'' P1 IH1 P2 IH2]; intros D.
  - exact D.
  - apply duplicate_names_cons in D. apply duplicate_names_cons.
    destruct D as [[a [v' [b [Ea [I [Eb E]]]]]]|D].
    + left. exists a, v', b. repeat split; auto. now apply (Permutation_in _ P).
    + right. now apply IH.
  - apply duplicate_names_cons in D.
    destruct D as [[a [v' [b [Ea [[<-|I] [Eb E]]]]]]|D].
    + eapply JSONField.dup_first; [exact Eb | now left | exact Ea |].
      now rewrite key_eqb_sym.
    + apply JSONField.dup_later. eapply JSONField.dup_first; eauto.
    + apply duplicate_names_cons in D.
      destruct D as [[a [v' [b [Ea [I [Eb E]]]]]]|D].
      * eapply JSONField.dup_first; [exact Ea | right; exact I | exact Eb | exact E].
      * now do 2 apply JSONField.dup_later.
  - auto.
Qed.

Lemma unhashable_name_perm (l l' : list pyval) :
  Permutation l l' -> JSONField.unhashable_name l -> JSONField.unhashable_name l'.
Proof.
  intros P [v [name [e [I R]]]]. exists v, name, e.
  split; [now apply (Permutation_in _ P) | exact R].
Qed.

(** X8. Whether the check of [db_value] raises does not depend on the order
    in which the dict holds its entries: two dicts with the same entries, in
    any order and with names of any kind, are both refused or both passed to
    [json.dumps]. *)
Theorem JSONField_check_order_independent :
  forall (entries entries' : list (string * pyval)),
    Permutation entries entries' ->
    (raises (JSONField.scan (map snd entries) []) <->
     raises (JSONField.scan (map snd entries') [])) /\
    (forall json_dumps : pyval -> outcome string,
       JSONField.scan (map snd entries) [] = Done tt ->
       JSONField.db_value json_dumps (PDict entries') = json_dumps (PDict entries')).
Proof.
  intros entries entries' P.
  assert (Pm : Permutation (map snd entries) (map snd entries')) by now apply Permutation_map.
  assert (Q : raises (JSONField.scan (map snd entries) []) <->
              raises (JSONField.scan (map snd entries') [])).
  { rewrite !scan_raises_iff. split; intros [D|U].
    - left. exact (duplicate_names_perm _ _ Pm D).
    - right. exact (unhashable_name_perm _ _ Pm U).
    - left. exact (duplicate_names_perm _ _ (Permutation_sym Pm) D).
    - right. exact (unhashable_name_perm _ _ (Permutation_sym Pm) U). }
  split; [exact Q|].
  intros json_dumps D. unfold JSONField.db_value. cbn [PyVal.values bind].
  destruct (scan_outcomes (map snd entries') []) as [D'|R].
  - rewrite D'. reflexivity.
  - assert (Ra : raises (JSONField.scan (map snd entries') [])).
    { destruct R as [[msg V]|[msg T]]; eexists; eassumption. }
    apply Q in Ra. destruct Ra as [e E]. congruence.
Qed.

Lemma JSONField_check_order_independent_witness :
  raises (JSONField.scan (map snd Sample.two_decks) []) <->
  raises (JSONField.scan (map snd (rev Sample.two_decks)) []).
Proof.
  apply (JSONField_check_order_independent Sample.two_decks (rev Sample.two_decks)).
  apply Permutation_rev.
Defined.

(** ** The identifier loop, once more *)

Section IdLoopMore.

Context {R : Type} `{Model R}.

(** The loop never raises: [scalar()] is [None] on an empty table only, and
    the body runs when a row was found. *)
Lemma while_id_exists_outcomes (fuel : nat) (tbl : Db.table R) :
  forall instance : R,
    (exists r, Db.while_id_exists fuel tbl instance = Done r) \/
    Db.while_id_exists fuel tbl instance = OutOfFuel.
Proof.
  induction fuel as [|fuel IH]; intros instance; [now right|]. simpl.
  destruct (Db.get_or_none_id tbl (pk instance)) as [x|] eqn:G; [|eauto].
  apply get_or_none_id_Some in G. destruct G as [Ix Ex].
  destruct (max_id_of_member tbl (pk instance)) as [m Em].
  { rewrite <- Ex. unfold Db.ids. exact (in_map pk tbl x Ix). }
  rewrite Em. simpl. apply IH.
Qed.

Lemma max_id_app (tbl : Db.table R) (r : R) :
  Db.max_id (tbl ++ [r])%list =
  Some (match Db.max_id tbl with
        | Some m => Z.max m (pk r)
        | None => pk r
        end).
Proof.
  induction tbl as [|x tbl IH]; [reflexivity|].
  change (Db.max_id ((x :: tbl) ++ [r])%list)
    with (match Db.max_id (tbl ++ [r])%list with
          | None => Some (pk x)
          | Some m => Some (Z.max (pk x) m)
          end).
  rewrite IH. simpl. destruct (Db.max_id tbl) as [m|]; f_equal; lia.
Qed.

End IdLoopMore.

(** X9. What the identifier loop keeps, for the three tables that use it.
    It never raises, whatever the bound on its checks; it never lowers the
    id; a table with distinct ids still has distinct ids once the record it
    returns is added; and when the candidate was taken, the new id exceeds
    every id of the table, is the greatest id once the record is added, and
    the next record that comes with the same candidate gets the id after
    it. *)
Theorem allocator_keeps_ids_distinct :
  forall (R : Type) (M : Model R) (tbl : Db.table R) (instance : R),
    (forall fuel : nat,
       (exists r, Db.while_id_exists fuel tbl instance = Done r) \/
       Db.while_id_exists fuel tbl instance = OutOfFuel) /\
    exists r,
      Db.while_id_exists 2 tbl instance = Done r /\
      pk instance <= pk r /\
      (NoDup (Db.ids tbl) -> NoDup (Db.ids (tbl ++ [r])%list)) /\
      (In (pk instance) (Db.ids tbl) ->
         (forall i, In i (Db.ids tbl) -> i < pk r) /\
         Db.max_id (tbl ++ [r])%list = Some (pk r) /\
         exists r',
           Db.while_id_exists 2 (tbl ++ [r])%list instance = Done r' /\
           pk r' = pk r + 1).
Proof.
  intros R M tbl instance. split.
  { intros fuel. apply while_id_exists_outcomes. }
  destruct (while_id_exists_returns 2 tbl instance (le_n 2)) as [r [W [A [K J]]]].
  exists r. split; [exact W|]. split; [|split].
  - destruct (In_ids_dec tbl (pk instance)) as [I|N].
    + destruct (J I) as [m [Em ->]]. rewrite pk_set_pk.
      destruct (max_id_bounds _ _ Em) as [_ U]. specialize (U _ I). lia.
    + rewrite (K N). lia.
  - intros ND. unfold Db.ids. rewrite map_app. simpl. now apply NoDup_snoc.
  - intros I. destruct (J I) as [m [Em ->]]. rewrite pk_set_pk.
    destruct (max_id_bounds _ _ Em) as [_ U].
    split; [intros i Hi; specialize (U i Hi); lia|].
    assert (Ea : Db.max_id (tbl ++ [set_pk instance (m + 1)])%list = Some (m + 1)).
    { rewrite max_id_app, Em, pk_set_pk. f_equal. lia. }
    split; [exact Ea|].
    destruct (while_id_exists_taken 0 (tbl ++ [set_pk instance (m + 1)])%list instance)
      as [m' [Em' W']].
    { unfold Db.ids. rewrite map_app. apply in_or_app. now left. }
    eexists. split; [exact W'|]. rewrite pk_set_pk. congruence.
Qed.

(** ** The Note hook, field by field *)

Section NotesHookMore.

Variable stripHTMLMedia : string -> string.
Variable field_checksum : string -> Z.

(** The hook once its two loops have returned. *)
Lemma notes_pre_save_after_loops (n fuel : nat) (now : Q) (guid64 : nat -> string)
    (cursor : nat) (tbl : Db.table Notes.row) (instance : Notes.row) (created : bool) :
  ~ In (guid64 (cursor + n)%nat) (Notes.guids tbl) ->
  (n + 2 <= fuel)%nat ->
  exists r1 c,
    r1 = Notes.set_guid (Notes.set_id instance (Notes.id r1)) (Notes.guid r1) /\
    ~ In (Notes.id r1) (Db.ids tbl) /\ ~ In (Notes.guid r1) (Notes.guids tbl) /\
    (cursor <= c)%nat /\
    Notes.notes_pre_save stripHTMLMedia field_checksum fuel now guid64 cursor tbl instance created
      = match Notes.flds instance with
        | [] => Raise (IndexError "list index out of range")
        | f0 :: _ => Done (Notes.stamped stripHTMLMedia field_checksum now f0 r1, c)
        end.
Proof.
  intros Fr Fu.
  destruct (while_id_exists_returns fuel tbl instance) as [r0 [W0 [A0 _]]]; [lia|].
  destruct (while_guid_exists_returns tbl guid64 n fuel cursor r0 Fr Fu)
    as [r1 [c [W1 [A1 [K1 J1]]]]].
  pose proof (while_id_exists_frame _ _ _ _ W0) as F0.
  pose proof (while_guid_exists_frame _ _ _ _ _ _ _ W1) as F1.
  assert (I1 : Notes.id r1 = Notes.id r0) by (rewrite F1; reflexivity).
  assert (Fl : Notes.flds r1 = Notes.flds instance) by (rewrite F1, F0; reflexivity).
  assert (Lc : (cursor <= c)%nat).
  { destruct (In_guids_dec tbl (Notes.guid r0)) as [I|N].
    - destruct (J1 I) as [k [_ [-> _]]]. lia.
    - destruct (K1 N) as [_ ->]. lia. }
  exists r1, c. split; [|split; [|split; [|split]]].
  - rewrite F1 at 1. rewrite F0 at 1. rewrite I1. reflexivity.
  - rewrite I1. exact A0.
  - exact A1.
  - exact Lc.
  - unfold Notes.notes_pre_save. rewrite W0. cbn [bind]. rewrite W1. cbn [bind fst snd].
    cbn [Notes.flds Notes.set_mod]. rewrite Fl.
    destruct (Notes.flds instance); reflexivity.
Qed.

(** X10. What the Note hook leaves alone. On a note that has a first field,
    and with a generator that comes to a guid no row holds, the hook returns
    a note whose [mid], [usn], [tags], [flds], [flags] and [data] are those it
    was given; [mod] is [int(time() * 1000)], the product being that of
    floats, and the id and guid are held by no row of the table. *)
Theorem notes_pre_save_frame :
  forall (n fuel : nat) (now : Q) (guid64 : nat -> string) (cursor : nat)
    (tbl : Db.table Notes.row) (instance : Notes.row) (created : bool)
    (f0 : string) (rest : list string),
    Notes.flds instance = f0 :: rest ->
    ~ In (guid64 (cursor + n)%nat) (Notes.guids tbl) ->
    (n + 2 <= fuel)%nat ->
    exists r c,
      Notes.notes_pre_save stripHTMLMedia field_checksum fuel now guid64 cursor tbl
        instance created = Done (r, c) /\
      Notes.mod_ r = Some (int (float_mul now 1000)) /\
      Notes.mid r = Notes.mid instance /\ Notes.usn r = Notes.usn instance /\
      Notes.tags r = Notes.tags instance /\ Notes.flds r = Notes.flds instance /\
      Notes.flags r = Notes.flags instance /\ Notes.data r = Notes.data instance /\
      ~ In (Notes.id r) (Db.ids tbl) /\ ~ In (Notes.guid r) (Notes.guids tbl).
Proof.
  intros n fuel now guid64 cursor tbl instance created f0 rest Fl Fr Fu.
  destruct (notes_pre_save_after_loops n fuel now guid64 cursor tbl instance created Fr Fu)
    as [r1 [c [F [A0 [A1 [_ P]]]]]].
  rewrite Fl in P. eexists. exists c. split; [exact P|].
  split; [reflexivity|].
  assert (E : Notes.mid r1 = Notes.mid instance /\ Notes.usn r1 = Notes.usn instance /\
              Notes.tags r1 = Notes.tags instance /\ Notes.flds r1 = Notes.flds instance /\
              Notes.flags r1 = Notes.flags instance /\ Notes.data r1 = Notes.data instance).
  { rewrite F. repeat split. }
  destruct E as [E1 [E2 [E3 [E4 [E5 E6]]]]].
  cbn. repeat split; assumption.
Qed.

(** X11. A note with no field cannot be saved: once the two loops have
    returned, [instance.flds[0]] raises [IndexError], and [sfld] and [csum]
    are never computed. *)
Theorem notes_pre_save_no_field_IndexError :
  forall (n fuel : nat) (now : Q) (guid64 : nat -> string) (cursor : nat)
    (tbl : Db.table Notes.row) (instance : Notes.row) (created : bool),
    Notes.flds instance = [] ->
    ~ In (guid64 (cursor + n)%nat) (Notes.guids tbl) ->
    (n + 2 <= fuel)%nat ->
    Notes.notes_pre_save stripHTMLMedia field_checksum fuel now guid64 cursor tbl
      instance created = Raise (IndexError "list index out of range").
Proof.
  intros n fuel now guid64 cursor tbl instance created Fl Fr Fu.
  destruct (notes_pre_save_after_loops n fuel now guid64 cursor tbl instance created Fr Fu)
    as [r1 [c [_ [_ [_ [_ P]]]]]].
  rewrite Fl in P. exact P.
Qed.

(** The guid loop on a generator that gives held guids only. *)
Lemma while_guid_exists_stuck (tbl : Db.table Notes.row) (guid64 : nat -> string)
    (fuel : nat) :
  forall (cursor : nat) (instance : Notes.row),
    (forall j, In (guid64 (cursor + j)%nat) (Notes.guids tbl)) ->
    In (Notes.guid instance) (Notes.guids tbl) ->
    Notes.while_guid_exists fuel tbl guid64 cursor instance = OutOfFuel.
Proof.
  induction fuel as [|fuel IH]; intros cursor instance St I; [reflexivity|].
  rewrite (while_guid_exists_taken _ _ _ _ _ I). apply IH.
  - intros j. replace (S cursor + j)%nat with (cursor + S j)%nat by lia. apply St.
  - cbn. specialize (St 0%nat). now rewrite Nat.add_0_r in St.
Qed.

(** X12. The guid loop has no bound of its own. When the guid of the
    instance is held by a row and every draw of the generator is held by a row
    too, the loop goes on drawing: whatever the number of checks allowed, the
    hook has not returned and has not raised. *)
Theorem notes_pre_save_never_returns_on_held_draws :
  forall (now : Q) (guid64 : nat -> string) (cursor : nat)
    (tbl : Db.table Notes.row) (instance : Notes.row) (created : bool),
    In (Notes.guid instance) (Notes.guids tbl) ->
    (forall j, In (guid64 (cursor + j)%nat) (Notes.guids tbl)) ->
    forall fuel : nat,
      Notes.notes_pre_save stripHTMLMedia field_checksum fuel now guid64 cursor tbl
        instance created = OutOfFuel.
Proof.
  intros now guid64 cursor tbl instance created I St fuel.
  unfold Notes.notes_pre_save.
  destruct (while_id_exists_outcomes fuel tbl instance) as [[r0 W0]|W0]; rewrite W0;
    [|reflexivity].
  cbn [bind]. rewrite while_guid_exists_stuck; [reflexivity | exact St |].
  apply while_id_exists_frame in W0. rewrite W0. exact I.
Qed.

End NotesHookMore.

Lemma notes_pre_save_frame_witness :
  exists r c,
    Notes.notes_pre_save Sample.plain Sample.length_sum 2 (1700000000 # 1) Sample.letters 0
      [Sample.note 1 "Z" ["old"]] (Sample.note 1 "Z" ["Hello"; "answer"]) true = Done (r, c) /\
    Notes.mod_ r = Some 1700000000000 /\ Notes.flds r = ["Hello"; "answer"].
Proof.
  destruct (notes_pre_save_frame Sample.plain Sample.length_sum
              0 2 (1700000000 # 1) Sample.letters 0
              [Sample.note 1 "Z" ["old"]] (Sample.note 1 "Z" ["Hello"; "answer"]) true
              "Hello" ["answer"]) as [r [c [P [M [_ [_ [_ [F _]]]]]]]].
  - reflexivity.
  - simpl. intros [E|[]]. discriminate E.
  - lia.
  - exists r, c. split; [exact P|]. split; [|exact F].
    rewrite M. vm_compute. reflexivity.
Defined.

Lemma notes_pre_save_no_field_IndexError_witness :
  Notes.notes_pre_save Sample.plain Sample.length_sum 2 (1700000000 # 1) Sample.letters 0
    [Sample.note 1 "Z" ["old"]] (Sample.note 2 "Y" []) true
    = Raise (IndexError "list index out of range").
Proof.
  apply (notes_pre_save_no_field_IndexError Sample.plain Sample.length_sum
           0 2 (1700000000 # 1) Sample.letters 0
           [Sample.note 1 "Z" ["old"]] (Sample.note 2 "Y" []) true).
  - reflexivity.
  - simpl. intros [E|[]]. discriminate E.
  - lia.
Defined.

Lemma notes_pre_save_never_returns_on_held_draws_witness :
  Notes.notes_pre_save Sample.plain Sample.length_sum 1000 (1700000000 # 1)
    (fun _ => "Z") 0 [Sample.note 1 "Z" ["old"]] (Sample.note 2 "Z" ["Hello"]) true
    = OutOfFuel.
Proof.
  apply (notes_pre_save_never_returns_on_held_draws Sample.plain Sample.length_sum
           (1700000000 # 1) (fun _ => "Z") 0%nat
           [Sample.note 1 "Z" ["old"]] (Sample.note 2 "Z" ["Hello"]) true).
  - now left.
  - intros j. now left.
Defined.

(** ** The clock and its floats *)


Lemma denorm_pow : Z.pos denorm = 2 ^ 1074.
Proof. reflexivity. Qed.

Lemma round_half_even_cases (n d : Z) :
  round_half_even n d = n / d \/ round_half_even n d = n / d + 1.
Proof.
  unfold round_half_even. destruct (2 * (n mod d) ?= d); auto.
  destruct (Z.even (n / d)); auto.
Qed.

(** Rounding does not cross an integer. *)
Lemma round_half_even_ge (n d j : Z) : 0 < d -> j * d <= n -> j <= round_half_even n d.
Proof.
  intros Hd H. assert (j <= n / d) by (apply Z.div_le_lower_bound; lia).
  destruct (round_half_even_cases n d) as [-> | ->]; lia.
Qed.

Lemma round_half_even_le (n d j : Z) : 0 < d -> n <= j * d -> round_half_even n d <= j.
Proof.
  intros Hd H. unfold round_half_even.
  assert (Nd : d <> 0) by lia.
  pose proof (Z.div_mod n d Nd) as E. pose proof (Z.mod_pos_bound n d Hd) as B.
  set (q := n / d) in *. set (r := n mod d) in *.
  destruct (Z.compare_spec (2 * r) d) as [C|C|C].
  - assert (q < j) by nia. destruct (Z.even q); lia.
  - assert (q <= j) by nia. lia.
  - assert (q < j) by nia. lia.
Qed.

(** Rounding moves by half a unit at most. *)
Lemma round_half_even_err (n d : Z) : 0 < d -> 2 * d * round_half_even n d <= 2 * n + d.
Proof.
  intros Hd. unfold round_half_even.
  assert (Nd : d <> 0) by lia.
  pose proof (Z.div_mod n d Nd) as E. pose proof (Z.mod_pos_bound n d Hd) as B.
  set (q := n / d) in *. set (r := n mod d) in *.
  destruct (Z.compare_spec (2 * r) d) as [C|C|C].
  - destruct (Z.even q); nia.
  - nia.
  - nia.
Qed.

Lemma exponent_nonneg (a d : Z) : 0 <= exponent a d.
Proof. unfold exponent. lia. Qed.

Lemma pow2_pos (t : Z) : 0 <= t -> 0 < 2 ^ t.
Proof. intros. apply Z.pow_pos_nonneg; lia. Qed.

(** The step leaves 53 significant bits at most, *)
Lemma exponent_bound (a d : Z) :
  0 <= a -> 0 < d -> a * Z.pos denorm < d * 2 ^ (exponent a d + 53).
Proof.
  intros Ha Hd. unfold exponent. set (u := a * Z.pos denorm).
  assert (Hu : 0 <= u) by (unfold u; lia).
  assert (Hq : 0 <= u / d) by (apply Z.div_pos; lia).
  set (t := Z.max 0 (Z.log2 (u / d) - 52)).
  assert (L : u / d < 2 ^ (t + 53)).
  { destruct (Z.eq_dec (u / d) 0) as [E|E].
    - rewrite E. apply pow2_pos. unfold t. lia.
    - apply Z.log2_lt_pow2; [lia|]. unfold t. lia. }
  pose proof (Z.mul_succ_div_gt u d Hd). nia.
Qed.

(** and, above the smallest step, 53 at least. *)
Lemma exponent_pos (a d : Z) :
  0 <= a -> 0 < d -> 0 < exponent a d ->
  d * 2 ^ (exponent a d + 52) <= a * Z.pos denorm.
Proof.
  intros Ha Hd. unfold exponent. set (u := a * Z.pos denorm).
  intros P.
  assert (L : 52 < Z.log2 (u / d)) by lia.
  assert (Hq : 0 < u / d).
  { destruct (Z.lt_ge_cases 0 (u / d)) as [G|G]; [exact G|].
    rewrite Z.log2_nonpos in L by lia. lia. }
  rewrite Z.max_r by lia.
  replace (Z.log2 (u / d) - 52 + 52) with (Z.log2 (u / d)) by lia.
  destruct (Z.log2_spec (u / d) Hq) as [S _].
  pose proof (Z.mul_div_le u d Hd). nia.
Qed.

Lemma exponent_le (a d s : Z) :
  0 <= a -> 0 < d -> 0 <= s -> a * Z.pos denorm < d * 2 ^ (s + 53) -> exponent a d <= s.
Proof.
  intros Ha Hd Hs H. unfold exponent. set (u := a * Z.pos denorm) in *.
  assert (Hu : 0 <= u) by (unfold u; lia).
  assert (Q : u / d < 2 ^ (s + 53)) by (apply Z.div_lt_upper_bound; lia).
  assert (Hq : 0 <= u / d) by (apply Z.div_pos; lia).
  destruct (Z.eq_dec (u / d) 0) as [E|E].
  - rewrite E. simpl (Z.log2 0). lia.
  - apply Z.log2_lt_pow2 in Q; lia.
Qed.

Lemma nearest_nonneg (a d : Z) : 0 <= a -> 0 < d -> 0 <= nearest a d.
Proof.
  intros Ha Hd. unfold nearest.
  pose proof (pow2_pos _ (exponent_nonneg a d)) as P.
  apply Z.mul_nonneg_nonneg; [|lia].
  apply (round_half_even_ge _ _ 0); nia.
Qed.

(** A float is a multiple of its step. *)
Lemma nearest_grid (a d : Z) : (2 ^ exponent a d | nearest a d).
Proof. unfold nearest. eexists. reflexivity. Qed.

(** The nearest float is not below a multiple of the step that the number
    is not below, *)
Lemma nearest_ge (a d J : Z) :
  0 < d -> (2 ^ exponent a d | J) -> J * d <= a * Z.pos denorm -> J <= nearest a d.
Proof.
  intros Hd [j ->] H. unfold nearest.
  pose proof (pow2_pos _ (exponent_nonneg a d)) as P.
  apply Z.mul_le_mono_nonneg_r; [lia|].
  apply round_half_even_ge; nia.
Qed.

(** and is off by half a step at most. *)
Lemma nearest_err (a d : Z) :
  0 < d -> 2 * d * nearest a d <= 2 * (a * Z.pos denorm) + d * 2 ^ exponent a d.
Proof.
  intros Hd. unfold nearest.
  pose proof (pow2_pos _ (exponent_nonneg a d)) as P.
  set (t := exponent a d) in *.
  assert (Hdt : 0 < d * 2 ^ t) by nia.
  pose proof (round_half_even_err (a * Z.pos denorm) (d * 2 ^ t) Hdt). nia.
Qed.

Lemma nearest_le_pow (a d : Z) :
  0 <= a -> 0 < d -> nearest a d <= 2 ^ (exponent a d + 53).
Proof.
  intros Ha Hd. unfold nearest.
  pose proof (exponent_nonneg a d) as N. pose proof (pow2_pos _ N) as P.
  pose proof (exponent_bound a d Ha Hd) as B.
  rewrite Z.pow_add_r in * by lia. rewrite (Z.mul_comm (2 ^ exponent a d)).
  apply Z.mul_le_mono_nonneg_r; [lia|].
  apply round_half_even_le; nia.
Qed.

Lemma exponent_of_small (a d s : Z) :
  0 <= a -> 0 < d -> 0 <= s -> nearest a d < 2 ^ (s + 52) -> exponent a d <= s.
Proof.
  intros Ha Hd Hs H.
  destruct (Z.le_gt_cases (exponent a d) s) as [L|L]; [exact L|exfalso].
  assert (T : 0 < exponent a d) by lia.
  pose proof (exponent_pos a d Ha Hd T) as B.
  pose proof (pow2_pos _ (exponent_nonneg a d)) as P.
  assert (R : 2 ^ 52 <= round_half_even (a * Z.pos denorm) (d * 2 ^ exponent a d)).
  { apply round_half_even_ge; [nia|]. rewrite Z.pow_add_r in B by lia. nia. }
  assert (G : 2 ^ (s + 52) <= nearest a d).
  { unfold nearest. rewrite Z.pow_add_r by lia.
    assert (2 ^ s <= 2 ^ exponent a d) by (apply Z.pow_le_mono_r; lia).
    pose proof (pow2_pos s Hs). nia. }
  lia.
Qed.

Lemma denorm_divide (t : Z) : 0 <= t <= 1074 -> (2 ^ t | Z.pos denorm).
Proof.
  intros H. exists (2 ^ (1074 - t)). rewrite denorm_pow, <- Z.pow_add_r by lia.
  f_equal. lia.
Qed.

(** A float times one thousand, in units of [1 / denorm]: the product of a
    float below [2^43] stays in the thousand of the integer part. *)
Lemma nearest_1000 (a0 d0 : Z) :
  0 <= a0 -> 0 < d0 ->
  nearest a0 d0 / Z.pos denorm < 2 ^ 43 ->
  1000 * (nearest a0 d0 / Z.pos denorm) * Z.pos denorm
    <= nearest (nearest a0 d0 * (1000 * Z.pos denorm)) (Z.pos denorm * Z.pos denorm)
    < (1000 * (nearest a0 d0 / Z.pos denorm) + 1000) * Z.pos denorm.
Proof.
  intros Ha Hd Hk.
  pose proof (nearest_nonneg a0 d0 Ha Hd) as HN.
  pose proof (nearest_grid a0 d0) as GN.
  pose proof (nearest_le_pow a0 d0 Ha Hd) as LN.
  pose proof (exponent_nonneg a0 d0) as Ht.
  assert (S : nearest a0 d0 < 2 ^ (1065 + 52) -> exponent a0 d0 <= 1065).
  { apply exponent_of_small; lia. }
  pose proof denorm_pow as HD.
  pose proof (denorm_divide (exponent a0 d0)) as DN.
  set (N := nearest a0 d0) in *. set (tn := exponent a0 d0) in *.
  set (D := Z.pos denorm) in *.
  assert (PD : 0 < D) by (unfold D; lia).
  pose proof (Z.mul_div_le N D PD) as K1.
  pose proof (Z.mul_succ_div_gt N D PD) as K2.
  assert (K0 : 0 <= N / D) by (apply Z.div_pos; lia).
  set (k := N / D) in *.
  assert (E43 : 2 ^ 43 * D = 2 ^ (1065 + 52)).
  { rewrite HD, <- Z.pow_add_r by lia. reflexivity. }
  assert (E53 : 2 ^ 53 * D = 2 ^ (1074 + 53)).
  { rewrite HD, <- Z.pow_add_r by lia. reflexivity. }
  assert (B43 : N < 2 ^ 43 * D) by nia.
  assert (Tn : tn <= 1065) by (apply S; lia).
  pose proof (pow2_pos tn Ht) as PT.
  assert (Gap : N + 2 ^ tn <= (k + 1) * D).
  { destruct GN as [m Em]. destruct DN as [q Eq]; [lia|].
    assert (G : (2 ^ tn | (k + 1) * D - N)).
    { exists ((k + 1) * q - m). rewrite Em, Eq. ring. }
    apply Z.divide_pos_le in G; lia. }
  set (a := N * (1000 * D)). set (d := D * D).
  assert (Pd : 0 < d) by (unfold d; nia).
  assert (Pa : 0 <= a) by (unfold a; nia).
  assert (E1 : exponent a d <= tn + 10).
  { apply exponent_le; [lia | lia | lia |]. fold D.
    replace (tn + 10 + 53) with ((tn + 53) + 10) by lia.
    rewrite (Z.pow_add_r _ _ 10) by lia. change (2 ^ 10) with 1024.
    assert (P53 : 0 < 2 ^ (tn + 53)) by (apply pow2_pos; lia).
    assert (Q : N * 1000 < 2 ^ (tn + 53) * 1024) by lia.
    unfold a. replace (N * (1000 * D) * D) with (N * 1000 * d) by (unfold d; ring).
    replace (d * (2 ^ (tn + 53) * 1024)) with (2 ^ (tn + 53) * 1024 * d) by ring.
    apply Z.mul_lt_mono_pos_r; assumption. }
  assert (E2 : exponent a d <= 1074).
  { apply exponent_le; [lia | lia | lia |]. fold D. rewrite <- E53.
    unfold a. replace (N * (1000 * D) * D) with (N * 1000 * d) by (unfold d; ring).
    replace (d * (2 ^ 53 * D)) with (2 ^ 53 * D * d) by ring.
    apply Z.mul_lt_mono_pos_r; [assumption|].
    change (2 ^ 53) with (1024 * 2 ^ 43). lia. }
  pose proof (exponent_nonneg a d) as He.
  split.
  - apply nearest_ge; [exact Pd | |].
    + destruct (denorm_divide (exponent a d)) as [q Eq]; [lia|].
      exists (1000 * k * q). fold D in Eq. rewrite Eq. ring.
    + fold D. unfold a, d.
      replace (1000 * k * D * (D * D)) with (k * D * (1000 * (D * D))) by ring.
      replace (N * (1000 * D) * D) with (N * (1000 * (D * D))) by ring.
      apply Z.mul_le_mono_nonneg_r; nia.
  - pose proof (nearest_err a d Pd) as Er. fold D in Er.
    assert (P2 : 2 ^ exponent a d <= 1024 * 2 ^ tn).
    { change 1024 with (2 ^ 10). rewrite <- Z.pow_add_r by lia.
      apply Z.pow_le_mono_r; lia. }
    set (X := nearest a d) in *. set (p := 2 ^ exponent a d) in *.
    assert (Er' : 2 * X * d <= (2000 * N + p) * d).
    { unfold a in Er. unfold d in *. nia. }
    apply Z.mul_le_mono_pos_r in Er'; [|exact Pd].
    nia.
Qed.

Lemma int_of_fraction (a : Z) (b : positive) :
  0 <= a -> int (a # b) = a / Z.pos b.
Proof. intros A. unfold int. cbn [Qnum Qden]. apply Z.quot_div_nonneg; lia. Qed.

(** [int] reads the number, not the fraction that stands for it. *)
Lemma int_Qeq (x y : Q) : (x == y)%Q -> int x = int y.
Proof.
  destruct x as [a b], y as [c d]. unfold Qeq, int. cbn [Qnum Qden]. intros E.
  rewrite <- (Z.quot_mul_cancel_r a (Z.pos b) (Z.pos d)) by lia.
  rewrite <- (Z.quot_mul_cancel_r c (Z.pos d) (Z.pos b)) by lia.
  rewrite E. f_equal. ring.
Qed.

(** [float(1000)] is 1000. *)
Lemma float_1000 : float 1000 = (1000 * Z.pos denorm # denorm).
Proof. vm_compute. reflexivity. Qed.

(** The product of line 166, on a reading that [float] makes a float: it
    lies in the thousand of the whole seconds. *)
Lemma int_float_mul_1000 (x : Q) :
  (0 <= x)%Q -> int (float x) < 2 ^ 43 ->
  1000 * int (float x) <= int (float_mul x 1000) < 1000 * int (float x) + 1000.
Proof.
  destruct x as [n d0]. unfold Qle. cbn [Qnum Qden]. intros Hn.
  assert (Pn : 0 <= n) by lia. clear Hn.
  unfold float_mul. rewrite float_1000. unfold float. cbn [Qnum Qden Qmult].
  rewrite (Z.abs_eq n) by exact Pn.
  pose proof (nearest_nonneg n (Z.pos d0) Pn ltac:(lia)) as HN.
  pose proof (nearest_1000 n (Z.pos d0) Pn ltac:(lia)) as B.
  set (N := nearest n (Z.pos d0)) in *.
  set (D := Z.pos denorm) in *.
  assert (PD : 0 < D) by (unfold D; lia).
  destruct (Z.eq_dec (Z.sgn n * N) 0) as [Z0|NZ].
  - rewrite Z0. cbn [Z.mul Z.sgn]. rewrite !int_of_fraction by lia.
    fold D. rewrite Z.div_0_l by lia. intros _. lia.
  - assert (Sn : Z.sgn n = 1) by (destruct n; cbn in *; lia).
    rewrite Sn, Z.mul_1_l in *.
    assert (PN : 0 < N) by lia.
    assert (Pa : 0 < N * (1000 * D)) by nia.
    rewrite (Z.sgn_pos _ Pa), (Z.abs_eq _ (Z.lt_le_incl _ _ Pa)), Z.mul_1_l.
    rewrite Pos2Z.inj_mul. fold D.
    rewrite (int_of_fraction N) by lia. fold D. intros Hk. specialize (B Hk).
    pose proof (nearest_nonneg (N * (1000 * D)) (D * D) ltac:(lia) ltac:(nia)) as HX.
    rewrite int_of_fraction by exact HX. fold D.
    set (X := nearest (N * (1000 * D)) (D * D)) in *. set (k := N / D) in *.
    split.
    + apply Z.div_le_lower_bound; lia.
    + apply Z.div_lt_upper_bound; lia.
Qed.


(** A float is a float already: [float] leaves it as it is. *)
Lemma nearest_fixed (a d : Z) :
  0 <= a -> 0 < d -> nearest (nearest a d) (Z.pos denorm) = nearest a d.
Proof.
  intros Ha Hd.
  pose proof (nearest_nonneg a d Ha Hd) as HN.
  pose proof (nearest_grid a d) as GN.
  pose proof (nearest_le_pow a d Ha Hd) as LN.
  pose proof (exponent_nonneg a d) as Ht.
  set (N := nearest a d) in *. set (tn := exponent a d) in *.
  assert (PD : 0 < Z.pos denorm) by lia.
  pose proof (exponent_nonneg N (Z.pos denorm)) as Ht'.
  assert (G : (2 ^ exponent N (Z.pos denorm) | N)).
  { unfold exponent in *. rewrite Z.div_mul in * by lia.
    destruct (Z.eq_dec N 0) as [->|NZ]; [apply Z.divide_0_r|].
    destruct (Z.eq_dec N (2 ^ (tn + 53))) as [E|NE].
    - rewrite E, Z.log2_pow2 by lia. rewrite Z.max_r by lia.
      exists (2 ^ 52). rewrite <- Z.pow_add_r by lia. f_equal. lia.
    - assert (L : Z.log2 N < tn + 53) by (apply Z.log2_lt_pow2; lia).
      apply Z.divide_trans with (2 ^ tn); [|exact GN].
      exists (2 ^ (tn - Z.max 0 (Z.log2 N - 52))).
      rewrite <- Z.pow_add_r by lia. f_equal. lia. }
  destruct G as [j Ej]. unfold nearest at 1.
  pose proof (pow2_pos _ Ht') as P. set (p := 2 ^ exponent N (Z.pos denorm)) in *.
  assert (Pd : 0 < Z.pos denorm * p) by nia.
  rewrite Ej at 2. f_equal. apply Z.le_antisymm.
  - apply round_half_even_le; [exact Pd|]. rewrite Ej. nia.
  - apply round_half_even_ge; [exact Pd|]. rewrite Ej. nia.
Qed.

Lemma float_float (x : Q) : float (float x) = float x.
Proof.
  destruct x as [n d0]. unfold float. cbn [Qnum Qden]. f_equal.
  pose proof (nearest_nonneg (Z.abs n) (Z.pos d0) (Z.abs_nonneg n) ltac:(lia)) as HN.
  pose proof (nearest_fixed (Z.abs n) (Z.pos d0) (Z.abs_nonneg n) ltac:(lia)) as F.
  set (N := nearest (Z.abs n) (Z.pos d0)) in *.
  destruct (Z.eq_dec (Z.sgn n * N) 0) as [Z0|NZ].
  - rewrite Z0. reflexivity.
  - assert (PN : 0 < N) by lia.
    rewrite Z.sgn_mul, Z.abs_mul, (Z.sgn_pos N PN), Z.mul_1_r, Z.sgn_sgn.
    rewrite (Z.abs_eq N) by lia.
    assert (A : Z.abs (Z.sgn n) = 1) by (destruct n; cbn in *; lia).
    rewrite A, Z.mul_1_l, F. reflexivity.
Qed.

(** The reading 1700000000.001: the product of floats rounds up to a whole
    number of milliseconds that the exact product does not reach. *)
Lemma float_mul_rounds_up :
  int (float_mul (float (1700000000001 # 1000)) 1000) = 1700000000001 /\
  int (float (1700000000001 # 1000) * 1000) = 1700000000000.
Proof. split; vm_compute; reflexivity. Qed.

(** X13. The hooks do not stamp [mod] in one unit. At one reading [t] of the
    clock, a float not before the epoch and with less than [2^43] whole
    seconds, the Collection and Card hooks write [int(t)], whole seconds, and
    the Note hook writes [int(t * 1000)], the product being that of floats:
    whole milliseconds, in the thousand milliseconds of that second. The
    product is not the exact one: at 1700000000.001 the hook stamps
    1700000000001, where the exact product has 1700000000000 whole
    milliseconds. *)
Theorem hooks_stamp_seconds_and_milliseconds :
  forall (stripHTMLMedia : string -> string) (field_checksum : string -> Z)
    (n fuel : nat) (now : Q) (guid64 : nat -> string) (cursor : nat)
    (notes : Db.table Notes.row) (note : Notes.row)
    (cards : Db.table Cards.row) (card : Cards.row)
    (collection : Col.row pyval) (created : bool)
    (f0 : string) (rest : list string),
    (0 <= now)%Q ->
    (float now == now)%Q ->
    int now < 2 ^ 43 ->
    Notes.flds note = f0 :: rest ->
    ~ In (guid64 (cursor + n)%nat) (Notes.guids notes) ->
    (n + 2 <= fuel)%nat ->
    (exists (rn : Notes.row) (c : nat) (rc : Cards.row),
       Notes.notes_pre_save stripHTMLMedia field_checksum fuel now guid64 cursor notes
         note created = Done (rn, c) /\
       Cards.cards_pre_save 2 now cards card created = Done rc /\
       Col.mod_ (Col.col_pre_save now collection created) = Some (int now) /\
       Cards.mod_ rc = Some (int now) /\
       Notes.mod_ rn = Some (int (float_mul now 1000))) /\
    0 <= int now /\
    1000 * int now <= int (float_mul now 1000) < 1000 * int now + 1000 /\
    int (float_mul (float (1700000000001 # 1000)) 1000) = 1700000000001 /\
    int (float (1700000000001 # 1000) * 1000) = 1700000000000.
Proof.
  intros stripHTMLMedia field_checksum n fuel now guid64 cursor notes note cards card
    collection created f0 rest Pos Fn Bn Fl Fr Fu.
  destruct (notes_pre_save_after_loops stripHTMLMedia field_checksum
              n fuel now guid64 cursor notes note created Fr Fu)
    as [r1 [c [_ [_ [_ [_ P]]]]]].
  rewrite Fl in P.
  destruct (cards_pre_save_returns 2 now cards card created (le_n 2))
    as [r0 [_ [_ [_ [_ Pc]]]]].
  split; [|split; [|split]].
  - eexists. exists c. eexists.
    split; [exact P|]. split; [exact Pc|]. split; [reflexivity|].
    split; [destruct (Cards.due r0); reflexivity | reflexivity].
  - destruct now as [a b]. unfold Qle in Pos. cbn [Qnum Qden] in Pos.
    rewrite int_of_fraction by lia. apply Z.div_pos; lia.
  - rewrite <- (int_Qeq _ _ Fn) in Bn |- *. now apply int_float_mul_1000.
  - exact float_mul_rounds_up.
Qed.

Lemma hooks_stamp_seconds_and_milliseconds_witness :
  exists (rn : Notes.row) (c : nat) (rc : Cards.row),
    Notes.notes_pre_save Sample.plain Sample.length_sum 2 (float (1700000000001 # 1000))
      Sample.letters 0 [] (Sample.note 1 "Z" ["Hello"]) true = Done (rn, c) /\
    Cards.cards_pre_save 2 (float (1700000000001 # 1000)) [] Sample.card12345 true = Done rc /\
    Notes.mod_ rn = Some 1700000000001 /\
    Cards.mod_ rc = Some 1700000000.
Proof.
  destruct (hooks_stamp_seconds_and_milliseconds Sample.plain Sample.length_sum
              0 2 (float (1700000000001 # 1000)) Sample.letters 0
              [] (Sample.note 1 "Z" ["Hello"]) [] Sample.card12345
              (Sample.collection (PDict [])) true "Hello" [])
    as [[rn [c [rc [P [Pc [_ [Mc Mn]]]]]]] [_ [_ [E _]]]].
  - vm_compute. discriminate.
  - rewrite float_float. reflexivity.
  - vm_compute. reflexivity.
  - reflexivity.
  - simpl. tauto.
  - lia.
  - exists rn, c, rc. split; [exact P|]. split; [exact Pc|].
    rewrite Mn, Mc, E. split; [reflexivity|]. vm_compute. reflexivity.
Defined.

(** ** The Card hook, field by field *)

(** X14. The Card hook returns for every table and card; the card it returns
    has an id the table does not hold and differs from the given one in [id],
    [mod] and [due] at most; and it leaves [due] unset exactly when the card
    came with neither [due] nor [nid]. *)
Theorem cards_pre_save_frame :
  forall (now : Q) (tbl : Db.table Cards.row) (instance : Cards.row) (created : bool),
    exists r,
      Cards.cards_pre_save 2 now tbl instance created = Done r /\
      ~ In (Cards.id r) (Db.ids tbl) /\
      r = Cards.set_due (Cards.set_mod (Cards.set_id instance (Cards.id r)) (int now))
            (Cards.due r) /\
      (Cards.due r = None <-> Cards.due instance = None /\ Cards.nid instance = None).
Proof.
  intros now tbl instance created.
  destruct (cards_pre_save_returns 2 now tbl instance created (le_n 2))
    as [r0 [W [A [En [Ed P]]]]].
  eexists. split; [exact P|].
  assert (F : r0 = Cards.set_id instance (Cards.id r0)).
  { destruct (allocator_free_id_total tbl instance) as [q [W' [_ E]]].
    assert (Q : q = r0) by congruence. subst q.
    destruct E as [E|[m E]]; rewrite E; destruct instance; reflexivity. }
  assert (Di : Cards.due instance = Cards.due r0) by (rewrite F; reflexivity).
  destruct (Cards.due r0) eqn:D; cbn; (split; [exact A|]).
  - split.
    + rewrite F at 1; unfold Cards.set_due, Cards.set_mod, Cards.set_id; cbn;
        f_equal; congruence.
    + rewrite D. split; [discriminate | intros [C _]; congruence].
  - split.
    + rewrite F at 1; unfold Cards.set_due, Cards.set_mod, Cards.set_id; cbn;
        f_equal; congruence.
    + rewrite En. split; [intros E; split; [exact Di | exact E] | now intros [_ E]].
Qed.
